(** * MediSense-AI: the diagnosis request pipeline

    A shallow embedding of [src/lib/medicalLogic.ts] (vitals validator, model
    selector) and of the [/api/diagnose] route of [server.ts] (cache key,
    response cache, orchestrator, audit log), followed by the properties of
    the pipeline.

    Conventions.
    - A JavaScript string is a Rocq [string]; each character stands for the
      UTF-16 code unit of the same number (U+0000 to U+00FF).  [.length] is
      [String.length].
    - A JavaScript Number is a [number]: NaN, the two infinities, or a finite
      binary64 value kept as the exact rational it denotes.  Decimal text is
      converted with round-to-nearest, ties-to-even ([round_double]).
    - Mutable server state (cache, counters, audit table) is threaded
      explicitly through the request handler, which also records the
      effects of a request in the order they happen.  Console output is
      left out; an insert into the audit table always succeeds.
    - [diagnose] is the callback of the route: the request has passed the
      rate limiter, the body parser, [optionalAuthenticate] and the CSRF
      check.  The body is JSON that the body parser has read: its symptoms
      are strings, and its [vitals] and [demographics] are given both by
      what the property reads of the handler see, with string values as the
      interfaces declare, and by the text [JSON.stringify] writes for them. *)

From Stdlib Require Import ZArith QArith List Ascii String Bool Lia Permutation.
From stdpp Require Import gmap strings.
Import ListNotations.

Local Open Scope Z_scope.

(** ** The JavaScript runtime functions the pipeline calls *)

Module JS.

Definition code (c : ascii) : Z := Z.of_N (N_of_ascii c).

(** *** Numbers *)

Inductive number :=
| NaN
| NegInf
| PosInf
| Fin (q : Q).

Definition isNaN (x : number) : bool :=
  match x with NaN => true | _ => false end.

Definition Qltb (a b : Q) : bool :=
  Qnum a * Zpos (Qden b) <? Qnum b * Zpos (Qden a).

(** [x < y] on Numbers: false as soon as one side is NaN. *)
Definition lt (x y : number) : bool :=
  match x, y with
  | NaN, _ | _, NaN => false
  | NegInf, NegInf => false
  | NegInf, _ => true
  | _, NegInf => false
  | PosInf, _ => false
  | Fin _, PosInf => true
  | Fin a, Fin b => Qltb a b
  end.

(** [x > y] is [y < x]. *)
Definition gt (x y : number) : bool := lt y x.

Definition ofZ (z : Z) : number := Fin (inject_Z z).

(** Nearest integer to [a / b] for [0 <= a], [0 < b], ties to the even one. *)
Definition div_half_even (a b : Z) : Z :=
  let k := a / b in
  let r := a mod b in
  match 2 * r ?= b with
  | Lt => k
  | Gt => k + 1
  | Eq => if Z.even k then k else k + 1
  end.

(** Round a positive rational [n / d] to binary64: 53 significant bits,
    gradual underflow below 2^-1022, overflow to infinity from 2^1024. *)
Definition round_pos (n d : Z) : number :=
  let e0 := Z.log2 n - Z.log2 d in
  let below := if 0 <=? e0 then n <? d * 2 ^ e0 else n * 2 ^ (- e0) <? d in
  let e := if below then e0 - 1 else e0 in
  let ex := Z.max e (-1022) - 52 in
  let m := if 0 <=? ex then div_half_even n (d * 2 ^ ex)
           else div_half_even (n * 2 ^ (- ex)) d in
  if 0 <=? ex
  then (if 2 ^ 1024 <=? m * 2 ^ ex then PosInf else Fin (inject_Z (m * 2 ^ ex)))
  else Fin (Qred (Qmake m (Z.to_pos (2 ^ (- ex))))).

Definition neg (x : number) : number :=
  match x with
  | NaN => NaN
  | NegInf => PosInf
  | PosInf => NegInf
  | Fin q => Fin (Qopp q)
  end.

Definition round_double (q : Q) : number :=
  match Qnum q with
  | Z0 => Fin 0
  | Zpos n => round_pos (Zpos n) (Zpos (Qden q))
  | Zneg n => neg (round_pos (Zpos n) (Zpos (Qden q)))
  end.

(** *** Lexical helpers *)

(** WhiteSpace and LineTerminator code units below 256: TAB, LF, VT, FF, CR,
    SP and NBSP. *)
Definition isWhiteSpace (c : ascii) : bool :=
  let n := code c in
  ((9 <=? n) && (n <=? 13)) || (n =? 32) || (n =? 160).

Fixpoint trimStart (s : string) : string :=
  match s with
  | String c s' => if isWhiteSpace c then trimStart s' else s
  | EmptyString => s
  end.

Definition digitValue (c : ascii) : option Z :=
  let n := code c in
  if (48 <=? n) && (n <=? 57) then Some (n - 48) else None.

Definition hexDigitValue (c : ascii) : option Z :=
  let n := code c in
  if (48 <=? n) && (n <=? 57) then Some (n - 48)
  else if (97 <=? n) && (n <=? 102) then Some (n - 87)
  else if (65 <=? n) && (n <=? 70) then Some (n - 55)
  else None.

(** Longest prefix of digits of [s] in the given radix: the value read so
    far, the number of digits, and the rest of the string. *)
Fixpoint takeDigits (dv : ascii -> option Z) (radix : Z) (acc : Z) (cnt : Z)
    (s : string) : Z * Z * string :=
  match s with
  | String c s' =>
      match dv c with
      | Some v => takeDigits dv radix (acc * radix + v) (cnt + 1) s'
      | None => (acc, cnt, s)
      end
  | EmptyString => (acc, cnt, s)
  end.

Fixpoint startsWith (p s : string) : bool :=
  match p, s with
  | EmptyString, _ => true
  | String a p', String b s' => if Ascii.eqb a b then startsWith p' s' else false
  | String _ _, EmptyString => false
  end.

Fixpoint drop (n : nat) (s : string) : string :=
  match n, s with
  | O, _ => s
  | S n', String _ s' => drop n' s'
  | S _, EmptyString => s
  end.

(** *** parseInt(string), radix omitted *)

Definition parseInt (input : string) : number :=
  let s := trimStart input in
  let '(negative, s) :=
    match s with
    | String "-" s' => (true, s')
    | String "+" s' => (false, s')
    | _ => (false, s)
    end in
  let '(radix, dv, s) :=
    if startsWith "0x" s || startsWith "0X" s
    then (16, hexDigitValue, drop 2 s)
    else (10, digitValue, s) in
  let '(mathInt, cnt, _) := takeDigits dv radix 0 0 s in
  if cnt =? 0 then NaN
  else round_double (inject_Z (if negative then - mathInt else mathInt)).

(** *** parseFloat(string) *)

(** The exponent part [e], [e+] or [e-] followed by at least one digit;
    without a digit the literal ends before the [e]. *)
Definition exponentPart (s : string) : Z :=
  match s with
  | String c s' =>
      if Ascii.eqb c "e" || Ascii.eqb c "E" then
        let '(negative, s'') :=
          match s' with
          | String "-" t => (true, t)
          | String "+" t => (false, t)
          | _ => (false, s')
          end in
        let '(ev, cnt, _) := takeDigits digitValue 10 0 0 s'' in
        if cnt =? 0 then 0 else if negative then - ev else ev
      else 0
  | EmptyString => 0
  end.

(** Mathematical value of [mant * 10^ex]. *)
Definition decimalValue (mant ex : Z) : Q :=
  if 0 <=? ex then inject_Z (mant * 10 ^ ex)
  else Qmake mant (Z.to_pos (10 ^ (- ex))).

Definition parseFloat (input : string) : number :=
  let s := trimStart input in
  let '(negative, s) :=
    match s with
    | String "-" s' => (true, s')
    | String "+" s' => (false, s')
    | _ => (false, s)
    end in
  let sign (x : number) := if negative then neg x else x in
  if startsWith "Infinity" s then sign PosInf
  else
    let '(ip, icnt, s1) := takeDigits digitValue 10 0 0 s in
    match s1 with
    | String "." s2 =>
        let '(mant, cnt, s3) := takeDigits digitValue 10 ip icnt s2 in
        if cnt =? 0 then NaN
        else sign (round_double
                     (decimalValue mant (exponentPart s3 - (cnt - icnt))))
    | _ =>
        if icnt =? 0 then NaN
        else sign (round_double (decimalValue ip (exponentPart s1)))
    end.

(** *** String.prototype.split with a one-character separator *)

Fixpoint split (sep : ascii) (s : string) : list string :=
  match s with
  | EmptyString => [EmptyString]
  | String c s' =>
      if Ascii.eqb c sep then EmptyString :: split sep s'
      else match split sep s' with
           | p :: ps => String c p :: ps
           | [] => [String c EmptyString]
           end
  end.

(** *** Array.prototype.sort() without a comparator, on an array of strings

    Elements are ordered by their code units.  Equal strings cannot be told
    apart, so the result depends on the order alone and not on the sorting
    algorithm of the engine; an insertion sort computes it. *)

Fixpoint insertSorted (x : string) (l : list string) : list string :=
  match l with
  | [] => [x]
  | y :: l' => if String.leb x y then x :: l else y :: insertSorted x l'
  end.

Definition sort (l : list string) : list string :=
  fold_right insertSorted [] l.

(** *** JSON.stringify on strings and on arrays of strings *)

Definition dquote : ascii := "034".
Definition backslash : ascii := "092".

Definition hexDigit (n : Z) : ascii :=
  ascii_of_N (Z.to_N (if n <? 10 then 48 + n else 87 + n)).

(** QuoteJSONString, one code unit: the two-character escapes, [\u00xx] for
    the other control characters, the character itself otherwise. *)
Definition quoteChar (c : ascii) : string :=
  let n := code c in
  if n =? 8 then "\b"
  else if n =? 9 then "\t"
  else if n =? 10 then "\n"
  else if n =? 12 then "\f"
  else if n =? 13 then "\r"
  else if n =? 34 then String backslash (String dquote EmptyString)
  else if n =? 92 then String backslash (String backslash EmptyString)
  else if n <? 32 then
    "\u00" +:+ String (hexDigit (n / 16)) (String (hexDigit (n mod 16)) EmptyString)
  else String c EmptyString.

Fixpoint quoteBody (s : string) : string :=
  match s with
  | EmptyString => String dquote EmptyString
  | String c s' => quoteChar c +:+ quoteBody s'
  end.

Definition quote (s : string) : string := String dquote (quoteBody s).

(** Elements of an array, comma separated, up to and including the closing
    bracket. *)
Fixpoint stringifyElements (l : list string) : string :=
  match l with
  | [] => "]"
  | [x] => quote x +:+ "]"
  | x :: l' => quote x +:+ "," +:+ stringifyElements l'
  end.

Definition stringifyArray (l : list string) : string :=
  "[" +:+ stringifyElements l.

(** A property [,"key":"value"] of an object being serialised; a property
    whose value is [undefined] is left out. *)
Definition stringifyField (key : string) (value : option string) : list string :=
  match value with
  | Some v => [quote key +:+ ":" +:+ quote v]
  | None => []
  end.

Fixpoint joinWith (sep : string) (l : list string) : string :=
  match l with
  | [] => EmptyString
  | [x] => x
  | x :: l' => x +:+ sep +:+ joinWith sep l'
  end.

Definition stringifyObject (members : list string) : string :=
  "{" +:+ joinWith "," members +:+ "}".

End JS.

(** ** [crypto.createHash("sha256").update(data).digest("hex")] *)

Module Crypto.
Import JS.

Definition w32 (x : Z) : Z := x mod 2 ^ 32.

Definition rotr (n x : Z) : Z :=
  Z.lor (Z.shiftr x n) (w32 (Z.shiftl x (32 - n))).

Definition xor3 (x y z : Z) : Z := Z.lxor (Z.lxor x y) z.

Definition Ch (x y z : Z) : Z :=
  Z.lxor (Z.land x y) (Z.land (Z.lxor x 0xffffffff) z).

Definition Maj (x y z : Z) : Z :=
  xor3 (Z.land x y) (Z.land x z) (Z.land y z).

Definition bigSigma0 (x : Z) : Z := xor3 (rotr 2 x) (rotr 13 x) (rotr 22 x).
Definition bigSigma1 (x : Z) : Z := xor3 (rotr 6 x) (rotr 11 x) (rotr 25 x).
Definition smallSigma0 (x : Z) : Z := xor3 (rotr 7 x) (rotr 18 x) (Z.shiftr x 3).
Definition smallSigma1 (x : Z) : Z := xor3 (rotr 17 x) (rotr 19 x) (Z.shiftr x 10).

(** The round constants and the initial hash value are the first 32 bits
    of the fractional parts of the cube roots of the first 64 primes and of
    the square roots of the first 8 primes. *)
Definition isPrime (n : Z) : bool :=
  forallb (fun d => negb (n mod d =? 0))
          (map (fun i => Z.of_nat i + 2) (seq 0 (Z.to_nat (n - 2)))).

Definition firstPrimes (count : nat) : list Z :=
  firstn count (filter isPrime (map (fun i => Z.of_nat i + 2) (seq 0 310))).

(** The largest [r] below [2^bits] with [r^degree <= n], one bit at a time. *)
Fixpoint integerRoot (degree n : Z) (bits : nat) (r : Z) : Z :=
  match bits with
  | O => r
  | S b =>
      let candidate := r + 2 ^ Z.of_nat b in
      integerRoot degree n b (if candidate ^ degree <=? n then candidate else r)
  end.

Definition K : list Z :=
  Eval vm_compute in
    map (fun p => w32 (integerRoot 3 (p * 2 ^ 96) 40 0)) (firstPrimes 64).

Definition initialHash : list Z :=
  Eval vm_compute in
    map (fun p => w32 (integerRoot 2 (p * 2 ^ 64) 40 0)) (firstPrimes 8).

(** The message, a single 1 bit, zero bits up to 56 bytes modulo 64, and the
    length in bits as a 64-bit big-endian integer. *)
Definition pad (msg : list Z) : list Z :=
  let len := Z.of_nat (List.length msg) in
  msg ++ [0x80] ++ repeat 0 (Z.to_nat ((55 - len) mod 64))
      ++ map (fun i => (8 * len / 2 ^ (8 * i)) mod 256) [7; 6; 5; 4; 3; 2; 1; 0].

Fixpoint toWords (bytes : list Z) : list Z :=
  match bytes with
  | b0 :: b1 :: b2 :: b3 :: rest =>
      (((b0 * 256 + b1) * 256 + b2) * 256 + b3) :: toWords rest
  | _ => []
  end.

(** Message schedule; [w] holds the words computed so far, latest first. *)
Fixpoint expand (n : nat) (w : list Z) : list Z :=
  match n with
  | O => w
  | S n' =>
      expand n'
        (w32 (smallSigma1 (nth 1 w 0) + nth 6 w 0
              + smallSigma0 (nth 14 w 0) + nth 15 w 0) :: w)
  end.

Definition schedule (block : list Z) : list Z := rev (expand 48 (rev block)).

Definition round (st : list Z) (kw : Z * Z) : list Z :=
  match st with
  | [a; b; c; d; e; f; g; h] =>
      let t1 := h + bigSigma1 e + Ch e f g + fst kw + snd kw in
      let t2 := bigSigma0 a + Maj a b c in
      [w32 (t1 + t2); a; b; c; w32 (d + t1); e; f; g]
  | _ => st
  end.

Fixpoint addWords (x y : list Z) : list Z :=
  match x, y with
  | a :: x', b :: y' => w32 (a + b) :: addWords x' y'
  | _, _ => []
  end.

Definition compress (h block : list Z) : list Z :=
  addWords h (fold_left round (combine K (schedule block)) h).

(** One compression per block of 16 words; [steps] bounds the number of
    blocks and is given the number of words. *)
Fixpoint hashBlocks (steps : nat) (h words : list Z) : list Z :=
  match steps, words with
  | S steps', _ :: _ =>
      hashBlocks steps' (compress h (firstn 16 words)) (skipn 16 words)
  | _, _ => h
  end.

Definition sha256 (msg : list Z) : list Z :=
  let words := toWords (pad msg) in
  hashBlocks (List.length words) initialHash words.

Definition hexWord (x : Z) : string :=
  string_of_list_ascii
    (map (fun i => hexDigit ((x / 16 ^ i) mod 16)) [7; 6; 5; 4; 3; 2; 1; 0]).

Fixpoint hexWords (l : list Z) : string :=
  match l with
  | [] => EmptyString
  | x :: l' => hexWord x +:+ hexWords l'
  end.

(** [update] of a string hashes its UTF-8 encoding. *)
Fixpoint utf8 (s : string) : list Z :=
  match s with
  | EmptyString => []
  | String c s' =>
      let n := code c in
      if n <? 128 then n :: utf8 s'
      else (192 + n / 64) :: (128 + n mod 64) :: utf8 s'
  end.

Definition sha256hex (data : string) : string := hexWords (sha256 (utf8 data)).

End Crypto.

(** ** [JSON.parse] *)

Module Json.
Import JS.

(** A parsed JSON document.  Strings hold their code units, since a [\u]
    escape can denote any of them; members of an object are kept in the order
    of the text, and a later duplicate of a key overrides an earlier one. *)
#[local] Unset Elimination Schemes.
Inductive value :=
| JNull
| JBool (b : bool)
| JNumber (x : number)
| JString (s : list Z)
| JArray (items : list value)
| JObject (members : list (list Z * value)).
#[local] Set Elimination Schemes.

Definition isJsonSpace (c : ascii) : bool :=
  let n := code c in
  (n =? 32) || (n =? 9) || (n =? 10) || (n =? 13).

Fixpoint skipWs (s : string) : string :=
  match s with
  | String c s' => if isJsonSpace c then skipWs s' else s
  | EmptyString => s
  end.

(** The character after a backslash, other than [u]. *)
Definition simpleEscape (c : ascii) : option Z :=
  let n := code c in
  if (n =? 34) || (n =? 92) || (n =? 47) then Some n
  else if n =? 98 then Some 8
  else if n =? 102 then Some 12
  else if n =? 110 then Some 10
  else if n =? 114 then Some 13
  else if n =? 116 then Some 9
  else None.

Definition consTo {A} (x : Z) (r : option (list Z * A)) : option (list Z * A) :=
  match r with
  | Some (l, rest) => Some (x :: l, rest)
  | None => None
  end.

(** A string after its opening quote: its code units and the text that
    follows the closing quote. *)
Fixpoint parseStringBody (s : string) : option (list Z * string) :=
  match s with
  | EmptyString => None
  | String c s' =>
      let n := code c in
      if n =? 34 then Some ([], s')
      else if n =? 92 then
        match s' with
        | String e s'' =>
            if code e =? 117 then
              match s'' with
              | String h1 (String h2 (String h3 (String h4 s3))) =>
                  match hexDigitValue h1, hexDigitValue h2,
                        hexDigitValue h3, hexDigitValue h4 with
                  | Some d1, Some d2, Some d3, Some d4 =>
                      consTo (((d1 * 16 + d2) * 16 + d3) * 16 + d4)
                             (parseStringBody s3)
                  | _, _, _, _ => None
                  end
              | _ => None
              end
            else
              match simpleEscape e with
              | Some x => consTo x (parseStringBody s'')
              | None => None
              end
        | EmptyString => None
        end
      else if n <? 32 then None
      else consTo n (parseStringBody s')
  end.

(** The text after the character of code [c], when [s] starts with it. *)
Definition expect (c : Z) (s : string) : option string :=
  match s with
  | String x r => if code x =? c then Some r else None
  | EmptyString => None
  end.

(** A JSON number: an optional minus sign, an integer part without leading
    zeros, an optional fraction with at least one digit, an optional exponent
    with at least one digit. *)
Definition optionalMinus (s : string) : bool * string :=
  match expect 45 s with
  | Some t => (true, t)
  | None => (false, s)
  end.

Definition integerPart (s : string) : option (Z * string) :=
  match s with
  | String c t =>
      match digitValue c with
      | Some d0 =>
          if d0 =? 0 then Some (0, t)
          else let '(v, _, r) := takeDigits digitValue 10 d0 1 t in Some (v, r)
      | None => None
      end
  | EmptyString => None
  end.

(** The digits read so far extended by those of the fraction, and their
    number. *)
Definition fractionPart (ip : Z) (s : string) : option (Z * Z * string) :=
  match expect 46 s with
  | Some u =>
      let '(m, cnt, r) := takeDigits digitValue 10 ip 0 u in
      if cnt =? 0 then None else Some (m, cnt, r)
  | None => Some (ip, 0, s)
  end.

Definition exponent (s : string) : option (Z * string) :=
  match s with
  | String e u =>
      if (code e =? 101) || (code e =? 69) then
        let '(eneg, u1) :=
          match expect 45 u, expect 43 u with
          | Some u', _ => (true, u')
          | None, Some u' => (false, u')
          | None, None => (false, u)
          end in
        let '(ev, cnt, r) := takeDigits digitValue 10 0 0 u1 in
        if cnt =? 0 then None else Some (if eneg then - ev else ev, r)
      else Some (0, s)
  | EmptyString => Some (0, s)
  end.

Definition parseNumber (s : string) : option (number * string) :=
  let '(negative, s1) := optionalMinus s in
  match integerPart s1 with
  | Some (ip, s2) =>
      match fractionPart ip s2 with
      | Some (mant, fcnt, s3) =>
          match exponent s3 with
          | Some (ex, s4) =>
              Some (round_double
                      (decimalValue (if negative then - mant else mant) (ex - fcnt)),
                    s4)
          | None => None
          end
      | None => None
      end
  | None => None
  end.

(** The literals [true], [false] and [null]. *)
Definition parseLiteral (s : string) : option (value * string) :=
  if startsWith "true" s then Some (JBool true, drop 4 s)
  else if startsWith "false" s then Some (JBool false, drop 5 s)
  else if startsWith "null" s then Some (JNull, drop 4 s)
  else None.

(** Each call spends one unit of fuel and reads at least one character
    before the next one, or is followed by such a call, so twice the length
    of the text is enough fuel. *)
Fixpoint parseValue (fuel : nat) (s : string) : option (value * string) :=
  match fuel with
  | O => None
  | S f =>
      match skipWs s with
      | EmptyString => None
      | String c t =>
          let n := code c in
          if n =? 123 then
            match expect 125 (skipWs t) with
            | Some r => Some (JObject [], r)
            | None =>
                match parseMembers f t with
                | Some (ms, r) => Some (JObject ms, r)
                | None => None
                end
            end
          else if n =? 91 then
            match expect 93 (skipWs t) with
            | Some r => Some (JArray [], r)
            | None =>
                match parseElements f t with
                | Some (vs, r) => Some (JArray vs, r)
                | None => None
                end
            end
          else if n =? 34 then
            match parseStringBody t with
            | Some (cs, r) => Some (JString cs, r)
            | None => None
            end
          else
            match parseLiteral (String c t) with
            | Some lit => Some lit
            | None =>
                match parseNumber (String c t) with
                | Some (x, r) => Some (JNumber x, r)
                | None => None
                end
            end
      end
  end
with parseElements (fuel : nat) (s : string) : option (list value * string) :=
  match fuel with
  | O => None
  | S f =>
      match parseValue f s with
      | Some (v, r) =>
          match expect 44 (skipWs r), expect 93 (skipWs r) with
          | Some r', _ =>
              match parseElements f r' with
              | Some (vs, r'') => Some (v :: vs, r'')
              | None => None
              end
          | None, Some r' => Some ([v], r')
          | None, None => None
          end
      | None => None
      end
  end
with parseMembers (fuel : nat) (s : string)
    : option (list (list Z * value) * string) :=
  match fuel with
  | O => None
  | S f =>
      match expect 34 (skipWs s) with
      | Some t =>
          match parseStringBody t with
          | Some (k, r) =>
              match expect 58 (skipWs r) with
              | Some r' =>
                  match parseValue f r' with
                  | Some (v, r2) =>
                      match expect 44 (skipWs r2), expect 125 (skipWs r2) with
                      | Some r3, _ =>
                          match parseMembers f r3 with
                          | Some (ms, r4) => Some ((k, v) :: ms, r4)
                          | None => None
                          end
                      | None, Some r3 => Some ([(k, v)], r3)
                      | None, None => None
                      end
                  | None => None
                  end
              | None => None
              end
          | None => None
          end
      | None => None
      end
  end.

(** [JSON.parse(text)]; [None] stands for the SyntaxError it throws. *)
Definition parse (text : string) : option value :=
  match parseValue (2 * String.length text + 2) text with
  | Some (v, r) =>
      match skipWs r with
      | EmptyString => Some v
      | String _ _ => None
      end
  | None => None
  end.

(** ToBoolean *)
Definition truthy (v : value) : bool :=
  match v with
  | JNull => false
  | JBool b => b
  | JNumber NaN => false
  | JNumber (Fin q) => negb (Qnum q =? 0)
  | JNumber _ => true
  | JString s => match s with [] => false | _ => true end
  | JArray _ | JObject _ => true
  end.

Definition codeUnits (s : string) : list Z :=
  map code (list_ascii_of_string s).

Fixpoint eqUnits (a b : list Z) : bool :=
  match a, b with
  | [], [] => true
  | x :: a', y :: b' => (x =? y) && eqUnits a' b'
  | _, _ => false
  end.

(** The value of the last member named [key], if any. *)
Fixpoint lookupMember (key : list Z) (ms : list (list Z * value)) : option value :=
  match ms with
  | [] => None
  | (k, v) :: ms' =>
      match lookupMember key ms' with
      | Some v' => Some v'
      | None => if eqUnits k key then Some v else None
      end
  end.

Inductive propertyRead :=
| Throws                       (* TypeError: reading a property of null *)
| Undefined
| Defined (v : value).

(** [v.name] for a name that no prototype defines. *)
Definition getProperty (v : value) (name : string) : propertyRead :=
  match v with
  | JNull => Throws
  | JObject ms =>
      match lookupMember (codeUnits name) ms with
      | Some x => Defined x
      | None => Undefined
      end
  | _ => Undefined
  end.

(** Truthiness of what a property read gave. *)
Definition isTruthy (r : propertyRead) : bool :=
  match r with
  | Defined v => truthy v
  | _ => false
  end.

End Json.

(** ** [src/lib/medicalLogic.ts] *)

Module MedicalLogic.
Import JS.

Record Vitals := {
  temperature : option string;
  bloodPressure : option string;
  heartRate : option string;
  spO2 : option string
}.

Record Demographics := {
  age : option string;
  gender : option string;
  preExistingConditions : option string
}.

(** The object [{ valid, error?, suggestion? }]. *)
Record Validation := {
  valid : bool;
  error : option string;
  suggestion : option string
}.

(** Truthiness of an optional string: present and not empty. *)
Definition truthy (s : option string) : bool :=
  match s with
  | Some s => negb (String.eqb s EmptyString)
  | None => false
  end.

(** [s || EMPTY]: the string itself, or the empty string when absent. *)
Definition orEmpty (s : option string) : string :=
  match s with
  | Some s => s
  | None => EmptyString
  end.

Definition temperatureError : Validation :=
  {| valid := false;
     error := Some "The temperature provided is outside of physiological limits.";
     suggestion := Some "Please double-check your thermometer reading and try again." |}.

Definition bloodPressureError : Validation :=
  {| valid := false;
     error := Some "The blood pressure reading appears to be invalid.";
     suggestion := Some "Ensure systolic (top number) is higher than diastolic (bottom number) and re-enter." |}.

Definition ok : Validation :=
  {| valid := true; error := None; suggestion := None |}.

(** The blood-pressure block of [validateVitals]: [Some] error when the block
    returns, [None] when control falls through. *)
Definition checkBloodPressure (bp : option string) : option Validation :=
  if truthy bp then
    match split "/" (orEmpty bp) with
    | [p0; p1] =>
        let systolic := parseInt p0 in
        let diastolic := parseInt p1 in
        if lt systolic diastolic || gt systolic (ofZ 300) || lt diastolic (ofZ 20)
        then Some bloodPressureError
        else None
    | _ => None
    end
  else None.

Definition validateVitals (vitals : option Vitals) : Validation :=
  match vitals with
  | None => ok
  | Some v =>
      let temp := parseFloat (orEmpty (temperature v)) in
      if truthy (temperature v) && negb (isNaN temp)
         && (lt temp (ofZ 30) || gt temp (ofZ 45))
      then temperatureError
      else match checkBloodPressure (bloodPressure v) with
           | Some e => e
           | None => ok
           end
  end.

Definition proTier : string := "gemini-3.1-pro-preview".
Definition flashTier : string := "gemini-3-flash-preview".

Definition selectModel (symptoms : list string) (additionalInfo : option string)
    (demographics : option Demographics) : string :=
  let isComplex :=
    match additionalInfo with
    | Some a => truthy (Some a) && (200 <? Z.of_nat (String.length a))
    | None => false
    end
    || match demographics with
       | Some d =>
           match preExistingConditions d with
           | Some p => truthy (Some p) && (50 <? Z.of_nat (String.length p))
           | None => false
           end
       | None => false
       end
    || (5 <? Z.of_nat (List.length symptoms)) in
  if isComplex then proTier else flashTier.

(** An element of [conditions], by the one property [calculateRiskScore]
    reads from it. *)
Record Condition := {
  urgency : option string
}.

(** [levels[key]] as a number: the three properties of the object, and NaN
    for any other key (the lookup gives [undefined] or a member inherited
    from the prototype, neither of which is a number). *)
Definition levels (key : option string) : number :=
  match key with
  | Some k =>
      if String.eqb k "Emergency" then ofZ 3
      else if String.eqb k "Urgent" then ofZ 2
      else if String.eqb k "Routine" then ofZ 1
      else NaN
  | None => NaN
  end.

Definition calculateRiskScore (conditions : list Condition) : string :=
  fold_left
    (fun prev curr =>
       match urgency curr with
       | Some u => if gt (levels (Some u)) (levels (Some prev)) then u else prev
       | None => prev
       end)
    conditions "Routine".

End MedicalLogic.

(** ** [server.ts]: the [/api/diagnose] route *)

Module Server.
Import JS Crypto MedicalLogic.

(** *** Request and response *)

(** [req.body.symptoms]: absent or otherwise falsy, a truthy value that is
    not an array, or an array of strings. *)
Inductive SymptomsField :=
| SymptomsMissing
| SymptomsNotArray
| SymptomList (l : list string).

(** The summary returned by [/api/wearable/data]; a field that is not a
    number (an average over no data arrives as [null]) is [None]. *)
Record WearableData := {
  avgSteps : option number;
  avgHeartRate : option number;
  sleepHours : option number
}.

(** The handler looks at [vitals] and at [demographics] in two ways: it
    reads their properties, and it hands them to [JSON.stringify].  The
    fields [vitals] and [demographics] are what the property reads see
    ([None] for a value that is falsy); [vitalsJson] and [demographicsJson]
    are the texts [JSON.stringify] writes for them, which follow the order
    of the keys of the body and hold every member of it ([None] for a value
    that is [undefined], whose member is left out). *)
Record Request := {
  symptoms : SymptomsField;
  additionalInfo : option string;
  vitals : option Vitals;
  vitalsJson : option string;
  demographics : option Demographics;
  demographicsJson : option string;
  wearableData : option WearableData;
  user : option string            (* [req.user?.uid] *)
}.

Inductive Body :=
| ErrorBody (code : string) (error suggestion : option string)
| JsonBody (payload : Json.value).

Record Response := {
  status : Z;
  body : Body
}.

(** *** The cache key *)

(** A property whose value [JSON.stringify] writes as [json], left out when
    the value is [undefined]. *)
Definition stringifyMember (key : string) (json : option string) : list string :=
  match json with
  | Some j => [quote key +:+ ":" +:+ j]
  | None => []
  end.

(** [JSON.stringify({ symptoms: symptoms.sort(), vitals, demographics })],
    where [vitals] and [demographics] are given by the texts that
    [JSON.stringify] writes for them. *)
Definition cacheKeyData (symptoms : list string) (vitals demographics : option string)
    : string :=
  stringifyObject
    ([quote "symptoms" +:+ ":" +:+ stringifyArray (sort symptoms)]
     ++ stringifyMember "vitals" vitals
     ++ stringifyMember "demographics" demographics).

(** The key, and the caller's array as [sort()] leaves it: sorted in place. *)
Definition getCacheKey (symptoms : list string) (vitals demographics : option string)
    : string * list string :=
  (sha256hex (cacheKeyData symptoms vitals demographics), sort symptoms).

(** *** Server state *)

Record CacheEntry := {
  cached : Json.value;
  expires : Z                      (* milliseconds *)
}.

Record AuditRow := {
  user_uid : string;
  model_used : string;
  input_hash : string;
  response_hash : string
}.

Record World := {
  diagnosisCache : gmap string CacheEntry;
  cacheHits : Z;
  cacheMisses : Z;
  audit_logs : list AuditRow
}.

Definition stdTTL : Z := 6 * 60 * 60.

(** Modelled from the spec: the response cache is the [node-cache] package,
    which is not under src/.  [get(key) -> Option<DiagnosisResponse>],
    [set(key, value)] with a fixed TTL applied at insertion (6 hours); an
    entry is unreadable past its TTL and is dropped by the read that finds it
    expired. *)
Definition cacheGet (now : Z) (key : string) (c : gmap string CacheEntry)
    : option Json.value * gmap string CacheEntry :=
  match c !! key with
  | Some e => if expires e <? now then (None, delete key c) else (Some (cached e), c)
  | None => (None, c)
  end.

(** Modelled from the spec: [set(key, value)] of the same package; the
    entry lives for the standard TTL from the moment it is inserted. *)
Definition cacheSet (now : Z) (key : string) (v : Json.value)
    (c : gmap string CacheEntry) : gmap string CacheEntry :=
  <[key := {| cached := v; expires := now + stdTTL * 1000 |}]> c.

(** *** The prompt *)

(** The template literal as the sequence of its parts.  The two numeric
    conversions of the wearable block are kept as they are applied, since
    nothing in the handler reads their result. *)
Inductive PromptPart :=
| Text (s : string)
| MathRound (x : option number)    (* [Math.round(x)] *)
| ToFixed1 (x : number).           (* [x.toFixed(1)] *)

Definition orElse (s : option string) (default : string) : string :=
  if truthy s then orEmpty s else default.

Definition vitalsString (vitals : option Vitals) : string :=
  match vitals with
  | Some v => "
    Vitals:
    - Temperature: " +:+ orElse (temperature v) "Not provided" +:+ "
    - Blood Pressure: " +:+ orElse (bloodPressure v) "Not provided" +:+ "
    - Heart Rate: " +:+ orElse (heartRate v) "Not provided" +:+ "
    - SpO2: " +:+ orElse (spO2 v) "Not provided" +:+ "
    "
  | None => EmptyString
  end.

Definition demographicsString (demographics : option Demographics) : string :=
  match demographics with
  | Some d => "
    Patient Demographics:
    - Age: " +:+ orElse (age d) "Not provided" +:+ "
    - Gender: " +:+ orElse (gender d) "Not provided" +:+ "
    - Pre-existing Conditions: " +:+ orElse (preExistingConditions d) "None reported" +:+ "
    "
  | None => EmptyString
  end.

(** [None] when [wearableData.sleepHours.toFixed] throws a TypeError. *)
Definition wearableString (wearableData : option WearableData)
    : option (list PromptPart) :=
  match wearableData with
  | Some wd =>
      match sleepHours wd with
      | Some h =>
          Some [Text "
    Wearable Data (Last 7 Days Avg):
    - Steps: "; MathRound (avgSteps wd); Text "
    - Heart Rate: "; MathRound (avgHeartRate wd); Text " bpm
    - Sleep: "; ToFixed1 h; Text " hours/night
    "]
      | None => None
      end
  | None => Some [Text EmptyString]
  end.

Definition safetyRules : string :=
  "
    
    CRITICAL SAFETY RULES:
    1. For 'Routine' urgency cases, you may suggest common Over-The-Counter (OTC) medications (e.g., Paracetamol, Ibuprofen, Antacids).
    2. NEVER suggest prescription-only medications (e.g., Antibiotics, Steroids, Opioids).
    3. NEVER provide dosage instructions (e.g., " +:+ String dquote "take 500mg every 4 hours" +:+ String dquote ").
    4. If symptoms are too vague or contradictory, set the " +:+ String dquote "inconclusive" +:+ String dquote " flag to true.
    
    Provide the response in a structured JSON format with the following keys:
    - summary: A brief overview of the assessment.
    - inconclusive: boolean (true if symptoms are too vague).
    - possibleConditions: An array of objects, each with:
      - condition: Name of the condition.
      - probability: A percentage string.
      - urgency: One of 'Routine', 'Urgent', 'Emergency'.
      - probableSpecialty: The type of medical specialist the patient should see (e.g., 'Cardiologist', 'Dermatologist', 'General Practitioner').
      - commonSymptoms: Array of strings.
      - nextSteps: Array of strings.
      - otcSuggestions: Array of strings (ONLY for 'Routine' cases).
      - pharmacyLinks: Array of objects with { name, url } (provide links to major pharmacies like CVS, Walgreens, or Amazon Pharmacy for the suggested OTC meds).
    - disclaimer: A medical disclaimer.".

Definition buildPrompt (symptoms : list string) (additionalInfo : option string)
    (vitals : option Vitals) (demographics : option Demographics)
    (wearable : list PromptPart) : list PromptPart :=
  [Text ("Analyze the following symptoms, vitals, patient demographics, and wearable data to provide a preliminary diagnostic assessment. 
    Symptoms: " +:+ joinWith ", " symptoms +:+ "
    " +:+ demographicsString demographics +:+ "
    " +:+ vitalsString vitals +:+ "
    ")]
  ++ wearable
  ++ [Text ("
    Additional Context: " +:+ orElse additionalInfo "None provided" +:+ safetyRules)].

(** *** The external model *)

(** How [await genAI.models.generateContent(...)] settles: it resolves with
    [result.text] after some milliseconds, rejects with an error of some
    name, or stays pending for ever. *)
Inductive ProviderOutcome :=
| Resolves (elapsed : Z) (text : option string)
| Rejects (elapsed : Z) (errorName : string)
| Pending.

Record Env := {
  now : Z;                         (* [Date.now()] when the request arrives *)
  provider : ProviderOutcome
}.

(** Effects of one request, in the order they happen. *)
Inductive Event :=
| CacheGet (key : string)
| CacheSet (key : string)
| ProviderCall (model : string) (prompt : list PromptPart)
| Abort                            (* the timer ran [controller.abort()] *)
| AuditInsert (row : AuditRow).

Record Outcome := {
  response : option Response;      (* [None]: the request is never answered *)
  world : World;
  trace : list Event
}.

Definition timeoutMs : Z := 25000.

Definition conflictingVitals (v : Validation) : Response :=
  {| status := 422;
     body := ErrorBody "CONFLICTING_VITALS" (error v) (suggestion v) |}.

Definition noSymptoms : Response :=
  {| status := 400;
     body := ErrorBody "INCONCLUSIVE_SYMPTOMS"
               (Some "No symptoms were selected.")
               (Some "Please select at least one symptom from the list or body map.") |}.

Definition inconclusiveSymptoms : Response :=
  {| status := 422;
     body := ErrorBody "INCONCLUSIVE_SYMPTOMS"
               (Some "The symptoms provided are too vague for a reliable assessment.")
               (Some "Try adding more specific symptoms or using the 'Additional Details' field to describe your condition in more detail.") |}.

Definition apiTimeout : Response :=
  {| status := 504;
     body := ErrorBody "API_TIMEOUT"
               (Some "The analysis is taking longer than expected.")
               (Some "Our AI is currently busy. Please try again in a few moments.") |}.

Definition serverError : Response :=
  {| status := 500;
     body := ErrorBody "SERVER_ERROR"
               (Some "An unexpected error occurred during analysis.")
               (Some "Please try again. If the problem persists, check your internet connection.") |}.

Definition success (payload : Json.value) : Response :=
  {| status := 200; body := JsonBody payload |}.

(** The [catch] block. *)
Definition catchError (errorName : string) : Response :=
  if String.eqb errorName "AbortError" then apiTimeout else serverError.

(** [JSON.stringify({ symptoms, additionalInfo, vitals, demographics })] *)
Definition inputData (symptoms : list string) (additionalInfo : option string)
    (vitals demographics : option string) : string :=
  stringifyObject
    ([quote "symptoms" +:+ ":" +:+ stringifyArray symptoms]
     ++ stringifyField "additionalInfo" additionalInfo
     ++ stringifyMember "vitals" vitals
     ++ stringifyMember "demographics" demographics).

(** When the call resolves, [clearTimeout] follows at once: the timer set
    before the call has fired only if the call was still pending after
    [timeoutMs].  The controller it aborts is not passed to the call. *)
Definition timerEvents (elapsed : Z) : list Event :=
  if timeoutMs <=? elapsed then [Abort] else [].

(** What follows a resolved call: parse, audit, inconclusive check, cache
    write, reply. *)
Definition afterProvider (w : World) (finished : Z) (uid modelName cacheKey : string)
    (sorted : list string) (req : Request) (text : option string) : Outcome :=
  match Json.parse (orElse text "{}") with
  | None => {| response := Some (catchError "SyntaxError"); world := w; trace := [] |}
  | Some diagnosis =>
      let row :=
        {| user_uid := uid;
           model_used := modelName;
           input_hash := sha256hex (inputData sorted (additionalInfo req)
                                      (vitalsJson req) (demographicsJson req));
           response_hash := sha256hex (orElse text EmptyString) |} in
      let w1 :=
        {| diagnosisCache := diagnosisCache w;
           cacheHits := cacheHits w;
           cacheMisses := cacheMisses w;
           audit_logs := audit_logs w ++ [row] |} in
      let cachedWorld :=
        {| diagnosisCache := cacheSet finished cacheKey diagnosis (diagnosisCache w1);
           cacheHits := cacheHits w1;
           cacheMisses := cacheMisses w1;
           audit_logs := audit_logs w1 |} in
      match Json.getProperty diagnosis "inconclusive" with
      | Json.Throws =>
          {| response := Some (catchError "TypeError");
             world := w1; trace := [AuditInsert row] |}
      | inconclusive =>
          if Json.isTruthy inconclusive then
            {| response := Some inconclusiveSymptoms;
               world := w1; trace := [AuditInsert row] |}
          else if truthy (additionalInfo req) then
            {| response := Some (success diagnosis);
               world := w1; trace := [AuditInsert row] |}
          else
            {| response := Some (success diagnosis);
               world := cachedWorld;
               trace := [AuditInsert row; CacheSet cacheKey] |}
      end
  end.

Definition prepend (events : list Event) (o : Outcome) : Outcome :=
  {| response := response o; world := world o; trace := events ++ trace o |}.

(** The [try] block on a cache miss. *)
Definition invokeModel (w : World) (env : Env) (uid cacheKey : string)
    (sorted : list string) (req : Request) : Outcome :=
  let modelName := selectModel sorted (additionalInfo req) (demographics req) in
  match wearableString (wearableData req) with
  | None => {| response := Some (catchError "TypeError"); world := w; trace := [] |}
  | Some wearable =>
      let prompt := buildPrompt sorted (additionalInfo req) (vitals req)
                      (demographics req) wearable in
      match provider env with
      | Pending =>
          {| response := None; world := w;
             trace := [ProviderCall modelName prompt; Abort] |}
      | Rejects elapsed errorName =>
          (* the [catch] block is entered without [clearTimeout]: the timer
             fires at [timeoutMs] whenever the call rejected *)
          {| response := Some (catchError errorName); world := w;
             trace := [ProviderCall modelName prompt; Abort] |}
      | Resolves elapsed text =>
          prepend (ProviderCall modelName prompt :: timerEvents elapsed)
            (afterProvider w (now env + elapsed) uid modelName cacheKey sorted req text)
      end
  end.

(** [app.post("/api/diagnose", ...)] *)
Definition diagnose (w : World) (env : Env) (req : Request) : Outcome :=
  let uid := orElse (user req) "anonymous" in
  let vitalsValidation := validateVitals (vitals req) in
  if negb (valid vitalsValidation) then
    {| response := Some (conflictingVitals vitalsValidation); world := w; trace := [] |}
  else
    match symptoms req with
    | SymptomList (first :: others) =>
        let '(cacheKey, sorted) :=
          getCacheKey (first :: others) (vitalsJson req) (demographicsJson req) in
        let '(cachedResult, cache') := cacheGet (now env) cacheKey (diagnosisCache w) in
        let miss :=
          prepend [CacheGet cacheKey]
            (invokeModel
               {| diagnosisCache := cache';
                  cacheHits := cacheHits w;
                  cacheMisses := cacheMisses w + 1;
                  audit_logs := audit_logs w |}
               env uid cacheKey sorted req) in
        match cachedResult with
        | Some v =>
            if Json.truthy v && negb (truthy (additionalInfo req)) then
              {| response := Some (success v);
                 world := {| diagnosisCache := cache';
                             cacheHits := cacheHits w + 1;
                             cacheMisses := cacheMisses w;
                             audit_logs := audit_logs w |};
                 trace := [CacheGet cacheKey] |}
            else miss
        | None => miss
        end
    | _ =>
        {| response := Some noSymptoms; world := w; trace := [] |}
    end.

End Server.

(** ** [components/BodyMap.tsx]: the symptom selection of the client *)

Module Client.

(** [prev.includes(symptom)] *)
Definition includes (x : string) (l : list string) : bool :=
  existsb (String.eqb x) l.

(** The update [toggleSymptom] hands to [setSelectedSymptoms]. *)
Definition toggleSymptom (symptom : string) (prev : list string) : list string :=
  if includes symptom prev
  then List.filter (fun s => negb (String.eqb s symptom)) prev
  else prev ++ [symptom].

(** The selection after a series of clicks, from the initial empty state. *)
Definition afterClicks (clicks : list string) : list string :=
  fold_left (fun selected symptom => toggleSymptom symptom selected) clicks [].

End Client.

(** ** [services/bookingService.ts] *)

Module Booking.
Import JS.

Record Doctor := {
  id : string;
  name : string;
  specialty : string;
  availability : list string;
  rating : number;
  image : string
}.

Record Appointment := {
  doctorId : string;
  date : string;
  time : string;
  patientName : string;
  appointmentSpecialty : string
}.

(** The value of a decimal literal of the program text. *)
Definition literal (tenths : Z) : number := round_double (Qmake tenths 10).

Definition MOCK_DOCTORS : list Doctor :=
  [ {| id := "1"; name := "Dr. Sarah Jenkins"; specialty := "Cardiologist";
       availability := ["09:00 AM"; "10:30 AM"; "02:00 PM"];
       rating := literal 49; image := "https://picsum.photos/seed/doc1/200/200" |};
    {| id := "2"; name := "Dr. Michael Chen"; specialty := "General Practitioner";
       availability := ["11:00 AM"; "01:00 PM"; "04:30 PM"];
       rating := literal 47; image := "https://picsum.photos/seed/doc2/200/200" |};
    {| id := "3"; name := "Dr. Elena Rodriguez"; specialty := "Dermatologist";
       availability := ["08:30 AM"; "12:00 PM"; "03:00 PM"];
       rating := literal 48; image := "https://picsum.photos/seed/doc3/200/200" |};
    {| id := "4"; name := "Dr. James Wilson"; specialty := "Neurologist";
       availability := ["10:00 AM"; "01:30 PM"; "04:00 PM"];
       rating := literal 46; image := "https://picsum.photos/seed/doc4/200/200" |};
    {| id := "5"; name := "Dr. Priya Sharma"; specialty := "Pediatrician";
       availability := ["09:30 AM"; "11:30 AM"; "02:30 PM"];
       rating := literal 49; image := "https://picsum.photos/seed/doc5/200/200" |} ].

(** [toLowerCase] on code units below 256: the letters A to Z, and the
    accented capitals U+00C0 to U+00DE except the multiplication sign. *)
Definition lowerChar (c : ascii) : ascii :=
  let n := code c in
  if ((65 <=? n) && (n <=? 90))
     || ((192 <=? n) && (n <=? 222) && negb (n =? 215))
  then ascii_of_N (Z.to_N (n + 32))
  else c.

Fixpoint toLowerCase (s : string) : string :=
  match s with
  | EmptyString => EmptyString
  | String c s' => String (lowerChar c) (toLowerCase s')
  end.

(** [s.includes(part)]: [part] occurs somewhere in [s]. *)
Fixpoint includes (part s : string) : bool :=
  startsWith part s
  || match s with
     | String _ s' => includes part s'
     | EmptyString => false
     end.

Definition matches (query : string) (d : Doctor) : bool :=
  includes (toLowerCase query) (toLowerCase (specialty d))
  || includes (toLowerCase (specialty d)) (toLowerCase query).

(** The value the promise resolves with, after the simulated delay. *)
Definition getDoctorsBySpecialty (query : string) : list Doctor :=
  let filtered := List.filter (matches query) MOCK_DOCTORS in
  match filtered with
  | [] => firstn 3 MOCK_DOCTORS
  | _ :: _ => filtered
  end.

Inductive BookingResult :=
| BookingError (message : string)
| Booked (success : bool) (message : string).

(** [MOCK_DOCTORS.find(d => d.id === doctorId)?.name] in a template
    literal: the name, or the text of [undefined]. *)
Definition doctorName (doctorId : string) : string :=
  match List.find (fun d => String.eqb (id d) doctorId) MOCK_DOCTORS with
  | Some d => name d
  | None => "undefined"
  end.

(** [random] is the value [Math.random()] returns. *)
Definition bookAppointment (random : number) (appointment : Appointment)
    : BookingResult :=
  if lt random (literal 1) then
    BookingError "The booking server is currently overloaded. Please try again."
  else
    Booked true
      ("Appointment successfully booked with " +:+ doctorName (doctorId appointment)
       +:+ " for " +:+ date appointment +:+ " at " +:+ time appointment +:+ ".").

End Booking.

(** ** [server.ts]: the authentication middleware *)

Module Auth.
Import JS.

(** The decoded token [verifyIdToken] resolves with. *)
Record DecodedToken := {
  uid : string;
  email : option string
}.

(** [s.split(sep)] for a separator that is not empty.  [skip] counts the
    characters of the separator still to pass over. *)
Fixpoint splitFrom (sep : string) (skip : nat) (s : string) : list string :=
  match s with
  | EmptyString => [EmptyString]
  | String c s' =>
      match skip with
      | S k => splitFrom sep k s'
      | O =>
          if startsWith sep s
          then EmptyString :: splitFrom sep (String.length sep - 1) s'
          else match splitFrom sep 0 s' with
               | p :: ps => String c p :: ps
               | [] => [String c EmptyString]
               end
      end
  end.

Definition splitOn (sep s : string) : list string := splitFrom sep 0 s.

(** What a middleware does: answer with a status and an error text, or
    call [next] with [req.user] as it then is. *)
Inductive Passage :=
| Refused (status : Z) (error : string)
| Next (user : option DecodedToken).

Section Middleware.

(** [admin.auth().verifyIdToken]: the decoded token, or [None] when the
    promise rejects. *)
Variable verifyIdToken : string -> option DecodedToken.

Definition isBearer (authHeader : option string) : bool :=
  match authHeader with
  | Some h => startsWith "Bearer " h
  | None => false
  end.

(** [authHeader.split("Bearer ")[1]] *)
Definition idTokenOf (authHeader : option string) : string :=
  match authHeader with
  | Some h => nth 1 (splitOn "Bearer " h) EmptyString
  | None => EmptyString
  end.

Definition authenticateUser (authHeader : option string) : Passage :=
  if negb (isBearer authHeader) then
    Refused 401 "Unauthorized: No token provided"
  else
    match verifyIdToken (idTokenOf authHeader) with
    | Some decodedToken => Next (Some decodedToken)
    | None => Refused 401 "Unauthorized: Invalid token"
    end.

Definition optionalAuthenticate (authHeader : option string) : Passage :=
  if isBearer authHeader then
    match verifyIdToken (idTokenOf authHeader) with
    | Some decodedToken => Next (Some decodedToken)
    | None => Next None
    end
  else Next None.

Definition defaultAdmin : string := "shreya.cs23068@sstcollege.edu.in".

(** [adminEmails.includes(req.user.email)] *)
Definition listed (e : option string) (adminEmails : list string) : bool :=
  match e with
  | Some e => existsb (String.eqb e) adminEmails
  | None => false
  end.

(** [ADMIN_EMAILS] is [process.env.ADMIN_EMAILS]. *)
Definition isAdmin (ADMIN_EMAILS : option string) (user : option DecodedToken)
    : Passage :=
  match user with
  | None => Refused 401 "Unauthorized"
  | Some u =>
      let adminEmails :=
        split "," (if MedicalLogic.truthy ADMIN_EMAILS
                   then MedicalLogic.orEmpty ADMIN_EMAILS else defaultAdmin) in
      if listed (email u) adminEmails then Next user
      else Refused 403 "Forbidden: Admin access required"
  end.

(** The middleware in front of the admin routes: [authenticateUser], then
    [isAdmin]. *)
Definition adminGate (ADMIN_EMAILS : option string) (authHeader : option string)
    : Passage :=
  match authenticateUser authHeader with
  | Next user => isAdmin ADMIN_EMAILS user
  | refused => refused
  end.

End Middleware.

End Auth.

(** ** Vocabulary of the statements *)

Module Props.
Import JS MedicalLogic Server.

(** [x] lies strictly below, strictly above, or between integer bounds. *)
Definition isBelow (x : number) (bound : Z) : Prop :=
  match x with
  | NegInf => True
  | Fin q => (q < inject_Z bound)%Q
  | _ => False
  end.

Definition isAbove (x : number) (bound : Z) : Prop :=
  match x with
  | PosInf => True
  | Fin q => (inject_Z bound < q)%Q
  | _ => False
  end.

Definition isWithin (lo hi : Z) (x : number) : Prop :=
  match x with
  | Fin q => (inject_Z lo <= q)%Q /\ (q <= inject_Z hi)%Q
  | _ => False
  end.

Definition withoutTemperature (v : Vitals) : Vitals :=
  {| temperature := None;
     bloodPressure := bloodPressure v;
     heartRate := heartRate v;
     spO2 := spO2 v |}.

Definition withHeartRateSpO2 (v : Vitals) (hr sp : option string) : Vitals :=
  {| temperature := temperature v;
     bloodPressure := bloodPressure v;
     heartRate := hr;
     spO2 := sp |}.

(** The escalation rule in the words of the specification: the addendum
    exceeds 200 characters, or the pre-existing-conditions text exceeds 50
    characters, or there are more than 5 symptoms. *)
Definition escalates (symptoms : list string) (additionalInfo : option string)
    (demographics : option Demographics) : Prop :=
  (exists a, additionalInfo = Some a /\ (200 < String.length a)%nat)
  \/ (exists d p, demographics = Some d /\ preExistingConditions d = Some p
                  /\ (50 < String.length p)%nat)
  \/ (5 < List.length symptoms)%nat.

(** The escalation rule with the symptoms counted as a set, as the
    specification describes them: duplicates collapse. *)
Definition escalatesAsSet (symptoms : list string) (additionalInfo : option string)
    (demographics : option Demographics) : Prop :=
  escalates (nodup string_dec symptoms) additionalInfo demographics.

(** The symptom list is missing, not an array, or empty. *)
Definition noSymptomGiven (f : SymptomsField) : Prop :=
  f = SymptomsMissing \/ f = SymptomsNotArray \/ f = SymptomList [].

(** The request gets as far as the call of the external model. *)
Definition reachesProvider (o : Outcome) : Prop :=
  exists model prompt, In (ProviderCall model prompt) (trace o).

Definition onlyTemperature (t : string) : Vitals :=
  {| temperature := Some t; bloodPressure := None;
     heartRate := None; spO2 := None |}.

Definition onlyBloodPressure (bp : string) : Vitals :=
  {| temperature := None; bloodPressure := Some bp;
     heartRate := None; spO2 := None |}.

(** The state in which the [try] block starts after a cache miss. *)
Definition afterMiss (w : World) (cache : gmap string CacheEntry) : World :=
  {| diagnosisCache := cache;
     cacheHits := cacheHits w;
     cacheMisses := cacheMisses w + 1;
     audit_logs := audit_logs w |}.

(** The state after a cache hit. *)
Definition afterHit (w : World) (cache : gmap string CacheEntry) : World :=
  {| diagnosisCache := cache;
     cacheHits := cacheHits w + 1;
     cacheMisses := cacheMisses w;
     audit_logs := audit_logs w |}.

Definition cacheKeyOf (req : Request) (l : list string) : string :=
  fst (getCacheKey l (vitalsJson req) (demographicsJson req)).

Definition lookupFor (w : World) (env : Env) (req : Request) (l : list string)
    : option Json.value * gmap string CacheEntry :=
  cacheGet (now env) (cacheKeyOf req l) (diagnosisCache w).

(** The lookup yields a truthy value and the request has no addendum. *)
Definition servedFromCache (w : World) (env : Env) (req : Request)
    (l : list string) : bool :=
  match fst (lookupFor w env req l) with
  | Some v => Json.truthy v && negb (truthy (additionalInfo req))
  | None => false
  end.

Definition uidOf (req : Request) : string := orElse (user req) "anonymous".

(** The JSON text of an object, written from its members in order: each
    member that is present as its quoted key, a colon and the text of its
    value, the members separated by commas, all between braces. *)
Fixpoint jsonMembers (separator : string) (ms : list (string * option string))
    : string :=
  match ms with
  | [] => "}"
  | (key, Some value) :: ms' =>
      separator +:+ JS.quote key +:+ ":" +:+ value +:+ jsonMembers "," ms'
  | (_, None) :: ms' => jsonMembers separator ms'
  end.

Definition jsonObject (ms : list (string * option string)) : string :=
  "{" +:+ jsonMembers EmptyString ms.

(** The JSON text of an array of strings. *)
Definition jsonArray (l : list string) : string :=
  "[" +:+ JS.joinWith "," (map JS.quote l) +:+ "]".

(** The input payload of an audit record: the symptoms, in the sorted order
    the array has by then, the addendum, the vitals and the demographics of
    the request, as one JSON object. *)
Definition inputPayload (req : Request) (l : list string) : string :=
  jsonObject
    [("symptoms", Some (jsonArray (JS.sort l)));
     ("additionalInfo", option_map JS.quote (additionalInfo req));
     ("vitals", vitalsJson req);
     ("demographics", demographicsJson req)].

(** The audit record of a request whose symptom array is [l] when the
    model answers [text], in the words of the specification: the caller or
    the anonymous sentinel, the model tier, the hash of the input payload,
    the hash of the raw answer. *)
Definition auditRowOf (req : Request) (l : list string) (text : option string)
    : AuditRow :=
  {| user_uid := uidOf req;
     model_used := selectModel (JS.sort l) (additionalInfo req) (demographics req);
     input_hash := Crypto.sha256hex (inputPayload req l);
     response_hash := Crypto.sha256hex (orElse text EmptyString) |}.

(** The text [JSON.stringify] writes for an object that holds the fields
    of [v] under the keys of the interface, in the order of the interface,
    which is how the client of the application writes its vitals. *)
Definition vitalsLiteral (v : Vitals) : string :=
  JS.stringifyObject
    (JS.stringifyField "temperature" (temperature v)
     ++ JS.stringifyField "bloodPressure" (bloodPressure v)
     ++ JS.stringifyField "heartRate" (heartRate v)
     ++ JS.stringifyField "spO2" (spO2 v)).

(** The same for the demographics. *)
Definition demographicsLiteral (d : Demographics) : string :=
  JS.stringifyObject
    (JS.stringifyField "age" (age d)
     ++ JS.stringifyField "gender" (gender d)
     ++ JS.stringifyField "preExistingConditions" (preExistingConditions d)).

Definition quoted (s : string) : string :=
  String JS.dquote (s +:+ String JS.dquote EmptyString).

(** A conclusive and an inconclusive answer of the model. *)
Definition conclusiveText : string :=
  "{" +:+ quoted "summary" +:+ ":" +:+ quoted "Likely a common cold." +:+ ","
      +:+ quoted "inconclusive" +:+ ":false}".

Definition inconclusiveText : string :=
  "{" +:+ quoted "summary" +:+ ":" +:+ quoted "Too vague." +:+ ","
      +:+ quoted "inconclusive" +:+ ":true}".

(** Number of calls of the external model in a trace. *)
Fixpoint providerCalls (t : list Event) : nat :=
  match t with
  | [] => 0
  | ProviderCall _ _ :: t' => S (providerCalls t')
  | _ :: t' => providerCalls t'
  end.

Definition withAddendum (l : list string) (a : string) : Request :=
  {| symptoms := SymptomList l; additionalInfo := Some a;
     vitals := None; vitalsJson := None;
     demographics := None; demographicsJson := None;
     wearableData := None; user := None |}.

(** The same moment, but the model answers [text] at once. *)
Definition promptly (env : Env) (text : option string) : Env :=
  {| now := now env; provider := Resolves 0 text |}.

Definition emptyWorld : World :=
  {| diagnosisCache := ∅; cacheHits := 0; cacheMisses := 0; audit_logs := [] |}.

Definition plainRequest (l : list string) : Request :=
  {| symptoms := SymptomList l; additionalInfo := None;
     vitals := None; vitalsJson := None;
     demographics := None; demographicsJson := None;
     wearableData := None; user := None |}.

(** A request whose body holds symptoms and the vitals [v], written as the
    client writes them. *)
Definition vitalsRequest (l : list string) (v : Vitals) : Request :=
  {| symptoms := SymptomList l; additionalInfo := None;
     vitals := Some v; vitalsJson := Some (vitalsLiteral v);
     demographics := None; demographicsJson := None;
     wearableData := None; user := None |}.

End Props.

(** ** Vocabulary of the further properties *)

Module Terms.
Import JS MedicalLogic Server Props.

(** Some condition of the list carries the urgency [u]. *)
Definition hasUrgency (u : string) (cs : list Condition) : Prop :=
  exists c, In c cs /\ urgency c = Some u.

Definition hasUrgencyb (u : string) (cs : list Condition) : bool :=
  existsb (fun c => match urgency c with
                    | Some x => String.eqb x u
                    | None => false
                    end) cs.

(** The tier named by two flags: an emergency was seen, an urgent case was
    seen. *)
Definition tierOf (emergency urgent : bool) : string :=
  if emergency then "Emergency" else if urgent then "Urgent" else "Routine".

(** The higher of two tiers, as the reducer compares them. *)
Definition higher (x y : string) : string :=
  if gt (levels (Some y)) (levels (Some x)) then y else x.

(** The reducer of [calculateRiskScore] under a name. *)
Definition riskStep (prev : string) (curr : Condition) : string :=
  match urgency curr with
  | Some u => if gt (levels (Some u)) (levels (Some prev)) then u else prev
  | None => prev
  end.

(** The request with its symptom array replaced. *)
Definition withSymptoms (req : Request) (l : list string) : Request :=
  {| symptoms := SymptomList l;
     additionalInfo := additionalInfo req;
     vitals := vitals req;
     vitalsJson := vitalsJson req;
     demographics := demographics req;
     demographicsJson := demographicsJson req;
     wearableData := wearableData req;
     user := user req |}.

(** The rows a trace inserts into [audit_logs], in order. *)
Fixpoint auditInserts (t : list Event) : list AuditRow :=
  match t with
  | [] => []
  | AuditInsert row :: t' => row :: auditInserts t'
  | _ :: t' => auditInserts t'
  end.

(** Number of cache lookups in a trace. *)
Fixpoint lookups (t : list Event) : nat :=
  match t with
  | [] => 0
  | CacheGet _ :: t' => S (lookups t')
  | _ :: t' => lookups t'
  end.

(** An error response: the status, the code, and both texts present. *)
Definition isErrorOf (st : Z) (code : string) (r : Response) : Prop :=
  status r = st /\ exists e s, body r = ErrorBody code (Some e) (Some s).

(** A digit or one of the letters a to f. *)
Definition isLowerHex (c : ascii) : bool :=
  (48 <=? code c) && (code c <=? 57) || (97 <=? code c) && (code c <=? 102).

(** All characters of a string pass a test. *)
Fixpoint allChars (p : ascii -> bool) (s : string) : bool :=
  match s with
  | EmptyString => true
  | String c s' => p c && allChars p s'
  end.

(** The form of a SHA-256 digest in hexadecimal. *)
Definition isDigest (h : string) : Prop :=
  String.length h = 64%nat /\ allChars isLowerHex h = true.

(** The members [JSON.stringify] writes for a list of optional fields. *)
Definition members (fields : list (string * option string)) : list string :=
  flat_map (fun f => stringifyField (fst f) (snd f)) fields.

Definition vitalsFields (v : Vitals) : list (string * option string) :=
  [("temperature", temperature v); ("bloodPressure", bloodPressure v);
   ("heartRate", heartRate v); ("spO2", spO2 v)].

Definition demographicsFields (d : Demographics) : list (string * option string) :=
  [("age", age d); ("gender", gender d);
   ("preExistingConditions", preExistingConditions d)].

(** Members that follow another one, each after its comma, and then [x]. *)
Definition following (ms : list string) (x : string) : string :=
  fold_right (fun m acc => "," +:+ m +:+ acc) x ms.

(** The members of the hashed object after [symptoms]. *)
Definition otherMembers (v d : option string) : list string :=
  stringifyMember "vitals" v ++ stringifyMember "demographics" d.

(** The list [isAdmin] searches. *)
Definition adminList (ADMIN_EMAILS : option string) : list string :=
  split "," (if truthy ADMIN_EMAILS then orEmpty ADMIN_EMAILS else Auth.defaultAdmin).

(** A verifier that knows one token. *)
Definition oneToken (token : string) (decoded : Auth.DecodedToken)
    : string -> option Auth.DecodedToken :=
  fun t => if String.eqb t token then Some decoded else None.

(** A request like [plainRequest], with wearable data. *)
Definition withWearable (l : list string) (wd : WearableData) : Request :=
  {| symptoms := SymptomList l; additionalInfo := None;
     vitals := None; vitalsJson := None;
     demographics := None; demographicsJson := None;
     wearableData := Some wd; user := None |}.

End Terms.

(** * The budget of the JSON parser *)

Section JsonFuel.
Import JS Json.

Lemma skipWs_length (s : string) :
  (String.length (skipWs s) <= String.length s)%nat.
Proof.
  induction s as [ | c s IH]; simpl; [lia | ].
  destruct (isJsonSpace c); simpl; lia.
Qed.

Lemma expect_length (c : Z) (s r : string) :
  expect c s = Some r -> String.length s = S (String.length r).
Proof.
  destruct s as [ | x s']; simpl; [discriminate | ].
  destruct (code x =? c); [ | discriminate]. intros H. injection H as ->. reflexivity.
Qed.

Lemma consTo_length {A} (x : Z) (o : option (list Z * A)) (l : list Z) (r : A) :
  consTo x o = Some (l, r) -> exists l', o = Some (l', r).
Proof.
  destruct o as [[l' r'] | ]; simpl; [ | discriminate].
  intros H. injection H as _ <-. eauto.
Qed.

Lemma parseStringBody_length (n : nat) :
  forall s l r, (String.length s <= n)%nat ->
    parseStringBody s = Some (l, r) -> (String.length r < String.length s)%nat.
Proof.
  induction n as [ | n IH]; intros s l r Hn H.
  - destruct s; [discriminate H | simpl in Hn; lia].
  - destruct s as [ | c s']; [discriminate H | ].
    simpl in Hn. simpl in H.
    destruct (code c =? 34).
    { injection H as _ <-. simpl. lia. }
    destruct (code c =? 92).
    + destruct s' as [ | e s'']; [discriminate H | ].
      simpl in Hn.
      destruct (code e =? 117).
      * destruct s'' as [ | h1 [ | h2 [ | h3 [ | h4 s3]]]]; try discriminate H.
        destruct (hexDigitValue h1), (hexDigitValue h2), (hexDigitValue h3),
          (hexDigitValue h4); try discriminate H.
        apply consTo_length in H. destruct H as (l' & H).
        apply IH in H; simpl in *; lia.
      * destruct (simpleEscape e); [ | discriminate H].
        apply consTo_length in H. destruct H as (l' & H).
        apply IH in H; simpl in *; lia.
    + destruct (code c <? 32); [discriminate H | ].
      apply consTo_length in H. destruct H as (l' & H).
      apply IH in H; simpl in *; lia.
Qed.

Lemma takeDigits_length (dv : ascii -> option Z) (radix : Z) (s : string) :
  forall acc cnt v n r,
    takeDigits dv radix acc cnt s = (v, n, r) ->
    (String.length r <= String.length s)%nat.
Proof.
  induction s as [ | c s IH]; intros acc cnt v n r H; simpl in H.
  - injection H as _ _ <-. lia.
  - destruct (dv c).
    + apply IH in H. simpl. lia.
    + injection H as _ _ <-. lia.
Qed.

Lemma optionalMinus_length (s : string) :
  (String.length (snd (optionalMinus s)) <= String.length s)%nat.
Proof.
  unfold optionalMinus. destruct (expect 45 s) as [t | ] eqn:E; simpl; [ | lia].
  apply expect_length in E. lia.
Qed.

Lemma integerPart_length (s : string) (v : Z) (r : string) :
  integerPart s = Some (v, r) -> (String.length r < String.length s)%nat.
Proof.
  destruct s as [ | c t]; simpl; [discriminate | ].
  destruct (digitValue c) as [d0 | ]; [ | discriminate].
  destruct (d0 =? 0).
  - intros H. injection H as _ <-. lia.
  - destruct (takeDigits digitValue 10 d0 1 t) as [[v' k] r'] eqn:E.
    intros H. injection H as _ <-. apply takeDigits_length in E. lia.
Qed.

Lemma fractionPart_length (ip : Z) (s : string) (m k : Z) (r : string) :
  fractionPart ip s = Some (m, k, r) -> (String.length r <= String.length s)%nat.
Proof.
  unfold fractionPart. destruct (expect 46 s) as [u | ] eqn:E.
  - destruct (takeDigits digitValue 10 ip 0 u) as [[m' cnt] r'] eqn:Et.
    destruct (cnt =? 0); [discriminate | ].
    intros H. injection H as _ _ <-.
    apply takeDigits_length in Et. apply expect_length in E. lia.
  - intros H. injection H as _ _ <-. lia.
Qed.

Lemma exponent_length (s : string) (ex : Z) (r : string) :
  exponent s = Some (ex, r) -> (String.length r <= String.length s)%nat.
Proof.
  destruct s as [ | e u]; simpl.
  - intros H. injection H as _ <-. simpl. lia.
  - destruct ((code e =? 101) || (code e =? 69)).
    + assert (Hu : forall p : bool * string,
                match expect 45 u, expect 43 u with
                | Some u', _ => (true, u')
                | None, Some u' => (false, u')
                | None, None => (false, u)
                end = p -> (String.length (snd p) <= String.length u)%nat).
      { intros p.
        destruct (expect 45 u) as [u' | ] eqn:Em;
          [ | destruct (expect 43 u) as [u' | ] eqn:Ep];
          intros <-; simpl;
          try (apply expect_length in Em); try (apply expect_length in Ep); lia. }
      destruct (match expect 45 u, expect 43 u with
                | Some u', _ => (true, u')
                | None, Some u' => (false, u')
                | None, None => (false, u)
                end) as [eneg u1].
      specialize (Hu _ eq_refl). simpl in Hu.
      destruct (takeDigits digitValue 10 0 0 u1) as [[ev cnt] r0] eqn:Et.
      destruct (cnt =? 0); [discriminate | ].
      intros H. injection H as _ <-. apply takeDigits_length in Et. lia.
    + intros H. injection H as _ <-. simpl. lia.
Qed.

Lemma parseNumber_length (s : string) (x : number) (r : string) :
  parseNumber s = Some (x, r) -> (String.length r < String.length s)%nat.
Proof.
  unfold parseNumber. pose proof (optionalMinus_length s) as H1.
  destruct (optionalMinus s) as [negative s1]. simpl in H1.
  destruct (integerPart s1) as [[ip s2] | ] eqn:E2; [ | discriminate].
  destruct (fractionPart ip s2) as [[[mant fcnt] s3] | ] eqn:E3; [ | discriminate].
  destruct (exponent s3) as [[ex s4] | ] eqn:E4; [ | discriminate].
  intros H. injection H as _ <-.
  apply integerPart_length in E2. apply fractionPart_length in E3.
  apply exponent_length in E4. lia.
Qed.

Lemma startsWith_drop (p s : string) :
  startsWith p s = true ->
  (String.length (drop (String.length p) s) + String.length p = String.length s)%nat.
Proof.
  revert s. induction p as [ | a p IH]; intros s H; simpl in *; [lia | ].
  destruct s as [ | b s]; [discriminate | ].
  destruct (Ascii.eqb a b); [ | discriminate].
  apply IH in H. simpl. lia.
Qed.

Lemma parseLiteral_length (s : string) (v : value) (r : string) :
  parseLiteral s = Some (v, r) -> (String.length r < String.length s)%nat.
Proof.
  unfold parseLiteral.
  destruct (startsWith "true" s) eqn:E1;
    [ | destruct (startsWith "false" s) eqn:E2;
        [ | destruct (startsWith "null" s) eqn:E3; [ | discriminate]]];
    intros H; injection H as _ <-;
    [apply startsWith_drop in E1 | apply startsWith_drop in E2
     | apply startsWith_drop in E3]; simpl in *; lia.
Qed.

Lemma parseValue_step (f : nat) (s : string) :
  parseValue (S f) s =
    match skipWs s with
    | EmptyString => None
    | String c t =>
        if code c =? 123 then
          match expect 125 (skipWs t) with
          | Some r => Some (JObject [], r)
          | None =>
              match parseMembers f t with
              | Some (ms, r) => Some (JObject ms, r)
              | None => None
              end
          end
        else if code c =? 91 then
          match expect 93 (skipWs t) with
          | Some r => Some (JArray [], r)
          | None =>
              match parseElements f t with
              | Some (vs, r) => Some (JArray vs, r)
              | None => None
              end
          end
        else if code c =? 34 then
          match parseStringBody t with
          | Some (cs, r) => Some (JString cs, r)
          | None => None
          end
        else
          match parseLiteral (String c t) with
          | Some lit => Some lit
          | None =>
              match parseNumber (String c t) with
              | Some (x, r) => Some (JNumber x, r)
              | None => None
              end
          end
    end.
Proof. reflexivity. Qed.

Lemma parseElements_step (f : nat) (s : string) :
  parseElements (S f) s =
    match parseValue f s with
    | Some (v, r) =>
        match expect 44 (skipWs r), expect 93 (skipWs r) with
        | Some r', _ =>
            match parseElements f r' with
            | Some (vs, r'') => Some (v :: vs, r'')
            | None => None
            end
        | None, Some r' => Some ([v], r')
        | None, None => None
        end
    | None => None
    end.
Proof. reflexivity. Qed.

Lemma parseMembers_step (f : nat) (s : string) :
  parseMembers (S f) s =
    match expect 34 (skipWs s) with
    | Some t =>
        match parseStringBody t with
        | Some (k, r) =>
            match expect 58 (skipWs r) with
            | Some r' =>
                match parseValue f r' with
                | Some (v, r2) =>
                    match expect 44 (skipWs r2), expect 125 (skipWs r2) with
                    | Some r3, _ =>
                        match parseMembers f r3 with
                        | Some (ms, r4) => Some ((k, v) :: ms, r4)
                        | None => None
                        end
                    | None, Some r3 => Some ([(k, v)], r3)
                    | None, None => None
                    end
                | None => None
                end
            | None => None
            end
        | None => None
        end
    | None => None
    end.
Proof. reflexivity. Qed.

(** A run that succeeds reads at least one character, and succeeds with the
    same result on any larger budget proportional to the text. *)
Lemma fuel_stable (f : nat) :
  (forall s v r, parseValue f s = Some (v, r) ->
     (String.length r < String.length s)%nat
     /\ forall f', (2 * String.length s + 1 <= f')%nat -> parseValue f' s = Some (v, r))
  /\ (forall s vs r, parseElements f s = Some (vs, r) ->
        (String.length r < String.length s)%nat
        /\ forall f', (2 * String.length s + 2 <= f')%nat ->
             parseElements f' s = Some (vs, r))
  /\ (forall s ms r, parseMembers f s = Some (ms, r) ->
        (String.length r < String.length s)%nat
        /\ forall f', (2 * String.length s + 2 <= f')%nat ->
             parseMembers f' s = Some (ms, r)).
Proof.
  induction f as [ | f (IHv & IHe & IHm)].
  { repeat split; discriminate. }
  split; [ | split].
  - intros s v r H. rewrite parseValue_step in H.
    pose proof (skipWs_length s) as Hws.
    destruct (skipWs s) as [ | c t] eqn:Es; [discriminate | ]. simpl in Hws.
    pose proof (skipWs_length t) as Hwt.
    assert (Hgo : forall f', (2 * String.length s + 1 <= f')%nat ->
                  exists f'', f' = S f'' /\ (2 * String.length t + 2 <= f'')%nat).
    { intros f' Hf. destruct f' as [ | f'']; [lia | ]. exists f''. split; [reflexivity | lia]. }
    destruct (code c =? 123) eqn:E1; [ | destruct (code c =? 91) eqn:E2;
                                         [ | destruct (code c =? 34) eqn:E3]].
    + destruct (expect 125 (skipWs t)) as [r0 | ] eqn:Ex.
      * injection H as <- <-. pose proof (expect_length _ _ _ Ex) as Hx. split; [lia | ].
        intros f' Hf. destruct (Hgo _ Hf) as (f'' & -> & _).
        rewrite parseValue_step, Es, E1, Ex. reflexivity.
      * destruct (parseMembers f t) as [[ms r0] | ] eqn:Em; [ | discriminate].
        injection H as <- <-. destruct (IHm _ _ _ Em) as [Hl Hst]. split; [lia | ].
        intros f' Hf. destruct (Hgo _ Hf) as (f'' & -> & Hf'').
        rewrite parseValue_step, Es, E1, Ex, (Hst _ Hf''). reflexivity.
    + destruct (expect 93 (skipWs t)) as [r0 | ] eqn:Ex.
      * injection H as <- <-. pose proof (expect_length _ _ _ Ex) as Hx. split; [lia | ].
        intros f' Hf. destruct (Hgo _ Hf) as (f'' & -> & _).
        rewrite parseValue_step, Es, E1, E2, Ex. reflexivity.
      * destruct (parseElements f t) as [[vs r0] | ] eqn:Em; [ | discriminate].
        injection H as <- <-. destruct (IHe _ _ _ Em) as [Hl Hst]. split; [lia | ].
        intros f' Hf. destruct (Hgo _ Hf) as (f'' & -> & Hf'').
        rewrite parseValue_step, Es, E1, E2, Ex, (Hst _ Hf''). reflexivity.
    + destruct (parseStringBody t) as [[cs r0] | ] eqn:Eb; [ | discriminate].
      injection H as <- <-.
      pose proof (parseStringBody_length _ _ _ _ (Nat.le_refl _) Eb) as Hb.
      split; [lia | ].
      intros f' Hf. destruct (Hgo _ Hf) as (f'' & -> & _).
      rewrite parseValue_step, Es, E1, E2, E3, Eb. reflexivity.
    + assert (Hlen : (String.length r < String.length (String c t))%nat).
      { destruct (parseLiteral (String c t)) as [[v0 r0] | ] eqn:El.
        - injection H as <- <-. exact (parseLiteral_length _ _ _ El).
        - destruct (parseNumber (String c t)) as [[x r0] | ] eqn:En; [ | discriminate].
          injection H as <- <-. exact (parseNumber_length _ _ _ En). }
      simpl in Hlen. split; [lia | ].
      intros f' Hf. destruct (Hgo _ Hf) as (f'' & -> & _).
      rewrite parseValue_step, Es, E1, E2, E3. exact H.
  - intros s vs r H. rewrite parseElements_step in H.
    destruct (parseValue f s) as [[v r0] | ] eqn:Ev; [ | discriminate].
    destruct (IHv _ _ _ Ev) as [Hl Hst].
    pose proof (skipWs_length r0) as Hw.
    destruct (expect 44 (skipWs r0)) as [r' | ] eqn:Ec.
    + destruct (parseElements f r') as [[vs' r''] | ] eqn:Ee; [ | discriminate].
      injection H as <- <-. destruct (IHe _ _ _ Ee) as [Hl' Hst'].
      pose proof (expect_length _ _ _ Ec) as Hx. split; [lia | ].
      intros f' Hf. destruct f' as [ | f'']; [lia | ].
      rewrite parseElements_step, (Hst f'') by lia. rewrite Ec.
      rewrite (Hst' f'') by lia. reflexivity.
    + destruct (expect 93 (skipWs r0)) as [r' | ] eqn:Eb; [ | discriminate].
      injection H as <- <-. pose proof (expect_length _ _ _ Eb) as Hx. split; [lia | ].
      intros f' Hf. destruct f' as [ | f'']; [lia | ].
      rewrite parseElements_step, (Hst f'') by lia. rewrite Ec, Eb. reflexivity.
  - intros s ms r H. rewrite parseMembers_step in H.
    pose proof (skipWs_length s) as Hws.
    destruct (expect 34 (skipWs s)) as [t | ] eqn:Eq; [ | discriminate].
    destruct (parseStringBody t) as [[k r0] | ] eqn:Eb; [ | discriminate].
    pose proof (skipWs_length r0) as Hw0.
    destruct (expect 58 (skipWs r0)) as [r' | ] eqn:Ecol; [ | discriminate].
    destruct (parseValue f r') as [[v r2] | ] eqn:Ev; [ | discriminate].
    destruct (IHv _ _ _ Ev) as [Hl Hst].
    pose proof (skipWs_length r2) as Hw2.
    pose proof (parseStringBody_length _ _ _ _ (Nat.le_refl _) Eb) as Hb.
    pose proof (expect_length _ _ _ Eq) as Hq.
    pose proof (expect_length _ _ _ Ecol) as Hc.
    destruct (expect 44 (skipWs r2)) as [r3 | ] eqn:Ecm.
    + destruct (parseMembers f r3) as [[ms' r4] | ] eqn:Em; [ | discriminate].
      injection H as <- <-. destruct (IHm _ _ _ Em) as [Hl' Hst'].
      pose proof (expect_length _ _ _ Ecm) as Hcm. split; [lia | ].
      intros f' Hf. destruct f' as [ | f'']; [lia | ].
      rewrite parseMembers_step, Eq, Eb, Ecol, (Hst f'') by lia. rewrite Ecm.
      rewrite (Hst' f'') by lia. reflexivity.
    + destruct (expect 125 (skipWs r2)) as [r3 | ] eqn:Ebr; [ | discriminate].
      injection H as <- <-. pose proof (expect_length _ _ _ Ebr) as Hbr.
      split; [lia | ].
      intros f' Hf. destruct f' as [ | f'']; [lia | ].
      rewrite parseMembers_step, Eq, Eb, Ecol, (Hst f'') by lia.
      rewrite Ecm, Ebr. reflexivity.
Qed.

(** Whatever some budget parses, the budget of [parse] parses too: [None]
    from [parse] is a syntax error, never an exhausted budget. *)
Theorem parse_fuel_suffices (fuel : nat) (text : string) (v : value) (rest : string) :
  parseValue fuel text = Some (v, rest) ->
  parseValue (2 * String.length text + 2) text = Some (v, rest).
Proof.
  intros H. destruct (fuel_stable fuel) as (Hv & _ & _).
  destruct (Hv _ _ _ H) as [_ Hst]. apply Hst. lia.
Qed.

Corollary parse_of_any_fuel (fuel : nat) (text : string) (v : value) (rest : string) :
  parseValue fuel text = Some (v, rest) ->
  skipWs rest = EmptyString ->
  parse text = Some v.
Proof.
  intros H Hr. unfold parse. rewrite (parse_fuel_suffices _ _ _ _ H), Hr. reflexivity.
Qed.

End JsonFuel.

(** * Properties of the vitals validator and of the model selector *)

Section Validator.
Import JS MedicalLogic Props.

Lemma lt_ofZ (x : number) (b : Z) : lt x (ofZ b) = true <-> isBelow x b.
Proof.
  destruct x as [ | | | q]; simpl; try (split; [discriminate | tauto]);
    try tauto.
  unfold Qltb, Qlt. apply Z.ltb_lt.
Qed.

Lemma gt_ofZ (x : number) (b : Z) : gt x (ofZ b) = true <-> isAbove x b.
Proof.
  unfold gt. destruct x as [ | | | q]; simpl;
    try (split; [discriminate | tauto]); try tauto.
  unfold Qltb, Qlt. apply Z.ltb_lt.
Qed.

Lemma within_not_outside (x : number) (lo hi : Z) :
  isWithin lo hi x -> lt x (ofZ lo) = false /\ gt x (ofZ hi) = false.
Proof.
  destruct x as [ | | | q]; simpl; try tauto.
  intros [Hlo Hhi]. unfold gt, lt, ofZ, Qltb.
  unfold Qle in Hlo, Hhi. split; apply Z.ltb_ge; assumption.
Qed.



Lemma split_two_nonempty (bp p0 p1 : string) :
  split "/" bp = [p0; p1] -> truthy (Some bp) = true.
Proof. destruct bp; [discriminate | reflexivity]. Qed.

(** The validator as a function of the two fields it reads. *)
Lemma validateVitals_unfold (v : Vitals) :
  validateVitals (Some v) =
    if truthy (temperature v) && negb (isNaN (parseFloat (orEmpty (temperature v))))
       && (lt (parseFloat (orEmpty (temperature v))) (ofZ 30)
           || gt (parseFloat (orEmpty (temperature v))) (ofZ 45))
    then temperatureError
    else match checkBloodPressure (bloodPressure v) with
         | Some e => e
         | None => ok
         end.
Proof. reflexivity. Qed.

Lemma checkBloodPressure_two (bp p0 p1 : string) :
  split "/" bp = [p0; p1] ->
  checkBloodPressure (Some bp) =
    if lt (parseInt p0) (parseInt p1) || gt (parseInt p0) (ofZ 300)
       || lt (parseInt p1) (ofZ 20)
    then Some bloodPressureError else None.
Proof.
  intros Hs. unfold checkBloodPressure.
  rewrite (split_two_nonempty _ _ _ Hs). unfold orEmpty. rewrite Hs. reflexivity.
Qed.

(** C10.  Two vitals values that agree on [temperature] and [bloodPressure]
    get the same verdict whatever their [heartRate] and [spO2] are; in
    particular, replacing these two fields by any values never changes the
    verdict, so they cannot make validation fail. *)
Theorem heartRate_spO2_not_read (v1 v2 : Vitals) :
  temperature v1 = temperature v2 ->
  bloodPressure v1 = bloodPressure v2 ->
  validateVitals (Some v1) = validateVitals (Some v2)
  /\ (forall hr sp,
        validateVitals (Some (withHeartRateSpO2 v1 hr sp)) = validateVitals (Some v1)).
Proof.
  intros Ht Hb. split.
  - rewrite !validateVitals_unfold, Ht, Hb. reflexivity.
  - intros hr sp. rewrite !validateVitals_unfold. reflexivity.
Qed.

Lemma heartRate_spO2_not_read_witness :
  validateVitals
    (Some {| temperature := Some "37.2"; bloodPressure := Some "120/80";
             heartRate := Some "9999"; spO2 := Some "-3" |})
  = validateVitals
      (Some {| temperature := Some "37.2"; bloodPressure := Some "120/80";
               heartRate := None; spO2 := Some "98" |}).
Proof.
  apply (heartRate_spO2_not_read
           {| temperature := Some "37.2"; bloodPressure := Some "120/80";
              heartRate := Some "9999"; spO2 := Some "-3" |}
           {| temperature := Some "37.2"; bloodPressure := Some "120/80";
              heartRate := None; spO2 := Some "98" |});
    reflexivity.
Defined.

(** C3 (defect of the code).  A reading whose two parts parse to the same
    number between 20 and 300 is accepted: the comparison is [systolic <
    diastolic], so equal pressures pass although the message of the check
    asks for a systolic value higher than the diastolic one. *)
Theorem equal_pressures_accepted (v : Vitals) (bp p0 p1 : string) (q : Q) :
  temperature v = None ->
  bloodPressure v = Some bp ->
  split "/" bp = [p0; p1] ->
  parseInt p0 = Fin q ->
  parseInt p1 = Fin q ->
  (inject_Z 20 <= q)%Q ->
  (q <= inject_Z 300)%Q ->
  validateVitals (Some v) = ok.
Proof.
  intros Ht Hb Hs H0 H1 Hlo Hhi.
  rewrite validateVitals_unfold, Ht, Hb. simpl truthy. simpl andb.
  rewrite (checkBloodPressure_two _ _ _ Hs), H0, H1.
  assert (Hirr : lt (Fin q) (Fin q) = false)
    by (simpl; unfold Qltb; apply Z.ltb_irrefl).
  destruct (within_not_outside (Fin q) 20 300 (conj Hlo Hhi)) as [Hl Hg].
  assert (Hg' : gt (Fin q) (ofZ 300) = false).
  { unfold gt, lt, ofZ, Qltb. apply Z.ltb_ge. exact Hhi. }
  rewrite Hirr, Hg', Hl. reflexivity.
Qed.

Lemma equal_pressures_accepted_witness :
  validateVitals (Some (onlyBloodPressure "100/100")) = ok.
Proof.
  apply (equal_pressures_accepted (onlyBloodPressure "100/100")
           "100/100" "100" "100" (inject_Z 100));
    try reflexivity; unfold Qle; simpl; lia.
Defined.

(** C8 (defect of the code).  A blood pressure whose first part does not
    parse is not treated as absent: the second part is still compared with
    its bound, and a diastolic value below 20 makes validation fail.  The
    temperature check guards itself with [isNaN]; this one does not. *)
Theorem unparseable_systolic_rejected (v : Vitals) (bp p0 p1 : string) (q : Q) :
  temperature v = None ->
  bloodPressure v = Some bp ->
  split "/" bp = [p0; p1] ->
  parseInt p0 = NaN ->
  parseInt p1 = Fin q ->
  (q < inject_Z 20)%Q ->
  validateVitals (Some v) = bloodPressureError.
Proof.
  intros Ht Hb Hs H0 H1 Hq.
  rewrite validateVitals_unfold, Ht, Hb. simpl truthy. simpl andb.
  rewrite (checkBloodPressure_two _ _ _ Hs), H0, H1.
  assert (Hl : lt (Fin q) (ofZ 20) = true) by (apply lt_ofZ; exact Hq).
  rewrite Hl. simpl. reflexivity.
Qed.

Lemma unparseable_systolic_rejected_witness :
  validateVitals (Some (onlyBloodPressure "abc/10")) = bloodPressureError.
Proof.
  apply (unparseable_systolic_rejected (onlyBloodPressure "abc/10")
           "abc/10" "abc" "10" (inject_Z 10));
    try reflexivity.
Defined.

(** What the blood-pressure check does reject, and the reading 120/80. *)
Lemma implausible_pressure_rejected (v : Vitals) (bp p0 p1 : string) (s d : Q) :
  temperature v = None ->
  bloodPressure v = Some bp ->
  split "/" bp = [p0; p1] ->
  parseInt p0 = Fin s ->
  parseInt p1 = Fin d ->
  (s < d)%Q \/ (inject_Z 300 < s)%Q \/ (d < inject_Z 20)%Q ->
  validateVitals (Some v) = bloodPressureError.
Proof.
  intros Ht Hb Hs H0 H1 Hbad.
  rewrite validateVitals_unfold, Ht, Hb. simpl truthy. simpl andb.
  rewrite (checkBloodPressure_two _ _ _ Hs), H0, H1.
  assert (Hc : lt (Fin s) (Fin d) || gt (Fin s) (ofZ 300) || lt (Fin d) (ofZ 20) = true).
  { rewrite !orb_true_iff. destruct Hbad as [H | [H | H]].
    - left. left. unfold lt, Qltb. apply Z.ltb_lt. exact H.
    - left. right. apply gt_ofZ. exact H.
    - right. apply lt_ofZ. exact H. }
  rewrite Hc. reflexivity.
Qed.

Example pressure_120_over_80 :
  validateVitals (Some (onlyBloodPressure "120/80")) = ok.
Proof. reflexivity. Qed.

(** The fields the claim of C8 does get right. *)
Lemma absent_vitals_valid : validateVitals None = ok.
Proof. reflexivity. Qed.

Lemma unparseable_temperature_skipped (v : Vitals) :
  isNaN (parseFloat (orEmpty (temperature v))) = true ->
  validateVitals (Some v) = validateVitals (Some (withoutTemperature v)).
Proof.
  intros Hn. rewrite !validateVitals_unfold, Hn.
  rewrite andb_false_r. reflexivity.
Qed.

Lemma unsplittable_pressure_skipped (bp : string) :
  List.length (split "/" bp) <> 2%nat -> checkBloodPressure (Some bp) = None.
Proof.
  intros Hn. unfold checkBloodPressure. destruct (truthy (Some bp)); [ | reflexivity].
  unfold orEmpty. destruct (split "/" bp) as [ | a [ | b [ | c l]]];
    try reflexivity. exfalso. apply Hn. reflexivity.
Qed.

Lemma both_parts_unparseable_skipped (bp p0 p1 : string) :
  split "/" bp = [p0; p1] -> parseInt p0 = NaN -> parseInt p1 = NaN ->
  checkBloodPressure (Some bp) = None.
Proof.
  intros Hs H0 H1. rewrite (checkBloodPressure_two _ _ _ Hs), H0, H1. reflexivity.
Qed.

End Validator.

Section Selector.
Import JS MedicalLogic Props.

Lemma long_text_is_truthy (n : Z) (s : string) :
  0 <= n ->
  truthy (Some s) && (n <? Z.of_nat (String.length s))
  = (n <? Z.of_nat (String.length s)).
Proof.
  intros Hn. destruct s as [ | c s']; [ | reflexivity].
  simpl. symmetry. apply Z.ltb_ge. exact Hn.
Qed.

Lemma ltb_length (n : nat) (m : nat) :
  (Z.of_nat n <? Z.of_nat m) = true <-> (n < m)%nat.
Proof. rewrite Z.ltb_lt. lia. Qed.

Lemma addendum_long (a : option string) :
  match a with
  | Some t => truthy (Some t) && (200 <? Z.of_nat (String.length t))
  | None => false
  end = true
  <-> exists t, a = Some t /\ (200 < String.length t)%nat.
Proof.
  destruct a as [t | ].
  - rewrite (long_text_is_truthy 200 t) by lia. rewrite (ltb_length 200).
    split; [intros H; exists t; auto | intros (t' & E & H); injection E as <-; exact H].
  - split; [discriminate | intros (t' & E & _); discriminate].
Qed.

Lemma conditions_long (d : option Demographics) :
  match d with
  | Some dm =>
      match preExistingConditions dm with
      | Some p => truthy (Some p) && (50 <? Z.of_nat (String.length p))
      | None => false
      end
  | None => false
  end = true
  <-> exists dm p, d = Some dm /\ preExistingConditions dm = Some p
                   /\ (50 < String.length p)%nat.
Proof.
  destruct d as [dm | ].
  - destruct (preExistingConditions dm) as [p | ] eqn:Hp.
    + rewrite (long_text_is_truthy 50 p) by lia. rewrite (ltb_length 50).
      split.
      * intros H. exists dm, p. auto.
      * intros (dm' & p' & E & Ep & H). injection E as <-.
        rewrite Hp in Ep. injection Ep as <-. exact H.
    + split; [discriminate | ].
      intros (dm' & p' & E & Ep & _). injection E as <-.
      rewrite Hp in Ep. discriminate.
  - split; [discriminate | intros (dm' & p' & E & _); discriminate].
Qed.

Lemma selectModel_complex (s : list string) (a : option string)
    (d : option Demographics) :
  selectModel s a d = proTier <-> escalates s a d.
Proof.
  unfold escalates.
  rewrite <- addendum_long, <- conditions_long, <- (ltb_length 5).
  rewrite <- !orb_true_iff, orb_assoc.
  unfold selectModel.
  match goal with
  | |- (if ?b then _ else _) = _ <-> ?c = true => change c with b; destruct b
  end; split; try reflexivity; discriminate.
Qed.

Lemma selectModel_two_tiers (s : list string) (a : option string)
    (d : option Demographics) :
  selectModel s a d = proTier \/ selectModel s a d = flashTier.
Proof.
  unfold selectModel.
  match goal with
  | |- (if ?b then _ else _) = _ \/ _ => destruct b
  end; auto.
Qed.

(** C6, as the code has it.  [selectModel] answers the higher-capability
    tier exactly when the addendum is longer than 200 characters, or the
    pre-existing-conditions text is longer than 50 characters, or the
    symptom array has more than 5 elements, a symptom counted as often as it
    occurs, and the baseline tier exactly when none of these holds.  It is
    a function of its three arguments alone: it reads and returns no state. *)
Theorem selectModel_escalation (s : list string) (a : option string)
    (d : option Demographics) :
  (selectModel s a d = proTier <-> escalates s a d)
  /\ (selectModel s a d = flashTier <-> ~ escalates s a d).
Proof.
  split; [apply selectModel_complex | ].
  rewrite <- selectModel_complex.
  destruct (selectModel_two_tiers s a d) as [H | H]; rewrite H; split.
  - discriminate.
  - intros Hn. exfalso. apply Hn. reflexivity.
  - intros _. discriminate.
  - reflexivity.
Qed.

(** C6 as stated fails: six copies of one symptom are a set of one member,
    which with no addendum and no demographics does not escalate by the
    rule of the specification, and the code answers the higher tier. *)
Lemma six_copies_of_one_symptom :
  let symptoms := ["Fever"; "Fever"; "Fever"; "Fever"; "Fever"; "Fever"] in
  nodup string_dec symptoms = ["Fever"]
  /\ ~ escalatesAsSet symptoms None None
  /\ selectModel symptoms None None = proTier.
Proof.
  cbv zeta. split; [reflexivity | ]. split; [ | reflexivity].
  unfold escalatesAsSet, escalates.
  intros [(a & H & _) | [(d & p & H & _) | H]]; try discriminate H.
  simpl in H. lia.
Qed.

End Selector.

(** * The input payload of the audit record *)

Section Payload.
Import JS Crypto MedicalLogic Server Props.
#[local] Arguments String.append !_ _ / : simpl nomatch.

Lemma append_assoc (a b c : string) : (a +:+ b) +:+ c = a +:+ (b +:+ c).
Proof. induction a as [ | x a IH]; simpl; [ | rewrite IH]; reflexivity. Qed.

Lemma stringifyElements_joined (l : list string) :
  stringifyElements l = joinWith "," (map quote l) +:+ "]".
Proof.
  induction l as [ | x l IH]; [reflexivity | ].
  destruct l as [ | y l]; [reflexivity | ].
  change (stringifyElements (x :: y :: l))
    with (quote x +:+ "," +:+ stringifyElements (y :: l)).
  rewrite IH. cbn [map joinWith]. rewrite !append_assoc. reflexivity.
Qed.

(** The text the handler hashes for the audit row is the input payload. *)
Lemma inputData_payload (req : Request) (l : list string) :
  inputData (sort l) (additionalInfo req) (vitalsJson req) (demographicsJson req)
  = inputPayload req l.
Proof.
  unfold inputData, inputPayload, jsonObject, jsonArray, stringifyObject,
    stringifyArray.
  rewrite stringifyElements_joined.
  destruct (additionalInfo req) as [a | ], (vitalsJson req) as [v | ],
    (demographicsJson req) as [d | ];
    cbn [option_map stringifyField stringifyMember app joinWith jsonMembers];
    rewrite ?append_assoc; reflexivity.
Qed.

Lemma auditRow_payload (req : Request) (l : list string) (text : option string) :
  {| user_uid := uidOf req;
     model_used := selectModel (sort l) (additionalInfo req) (demographics req);
     input_hash := sha256hex (inputData (sort l) (additionalInfo req)
                                (vitalsJson req) (demographicsJson req));
     response_hash := sha256hex (orElse text EmptyString) |}
  = auditRowOf req l text.
Proof. unfold auditRowOf. rewrite inputData_payload. reflexivity. Qed.

End Payload.

(** * Properties of the orchestrator *)

Section Orchestrator.
Import JS Crypto MedicalLogic Server Props.

Lemma diagnose_invalid (w : World) (env : Env) (req : Request) :
  valid (validateVitals (vitals req)) = false ->
  diagnose w env req =
    {| response := Some (conflictingVitals (validateVitals (vitals req)));
       world := w; trace := [] |}.
Proof. intros Hv. unfold diagnose. rewrite Hv. reflexivity. Qed.

Lemma diagnose_no_symptom (w : World) (env : Env) (req : Request) :
  valid (validateVitals (vitals req)) = true ->
  noSymptomGiven (symptoms req) ->
  diagnose w env req = {| response := Some noSymptoms; world := w; trace := [] |}.
Proof.
  intros Hv Hs. unfold diagnose. rewrite Hv. simpl negb. cbv iota.
  destruct Hs as [-> | [-> | ->]]; reflexivity.
Qed.

Lemma diagnose_hit (w : World) (env : Env) (req : Request)
    (first : string) (others : list string) (v : Json.value) :
  valid (validateVitals (vitals req)) = true ->
  symptoms req = SymptomList (first :: others) ->
  fst (lookupFor w env req (first :: others)) = Some v ->
  Json.truthy v && negb (truthy (additionalInfo req)) = true ->
  diagnose w env req =
    {| response := Some (success v);
       world := afterHit w (snd (lookupFor w env req (first :: others)));
       trace := [CacheGet (cacheKeyOf req (first :: others))] |}.
Proof.
  intros Hv Hs Hl Ht. unfold diagnose. rewrite Hv, Hs. simpl negb. cbv iota.
  unfold lookupFor, cacheKeyOf, getCacheKey in *. cbv beta iota zeta.
  simpl fst in *.
  destruct (cacheGet _ _ _) as [cr c']. simpl in Hl. subst cr.
  rewrite Ht. reflexivity.
Qed.

Lemma diagnose_miss (w : World) (env : Env) (req : Request)
    (first : string) (others : list string) :
  valid (validateVitals (vitals req)) = true ->
  symptoms req = SymptomList (first :: others) ->
  servedFromCache w env req (first :: others) = false ->
  diagnose w env req =
    prepend [CacheGet (cacheKeyOf req (first :: others))]
      (invokeModel (afterMiss w (snd (lookupFor w env req (first :: others))))
         env (uidOf req) (cacheKeyOf req (first :: others))
         (sort (first :: others)) req).
Proof.
  intros Hv Hs Hm. unfold diagnose. rewrite Hv, Hs. simpl negb. cbv iota.
  unfold servedFromCache, lookupFor, cacheKeyOf, getCacheKey in *.
  cbv beta iota zeta. simpl fst in *.
  destruct (cacheGet _ _ _) as [cr c']. simpl in Hm. simpl snd.
  destruct cr as [v | ]; [rewrite Hm | ]; reflexivity.
Qed.

(** The three ways a request ends before the [try] block, and the one way
    it enters it. *)
Lemma diagnose_cases (w : World) (env : Env) (req : Request) :
  (valid (validateVitals (vitals req)) = false)
  \/ (valid (validateVitals (vitals req)) = true /\ noSymptomGiven (symptoms req))
  \/ (exists first others,
        valid (validateVitals (vitals req)) = true
        /\ symptoms req = SymptomList (first :: others)
        /\ ((exists v, fst (lookupFor w env req (first :: others)) = Some v
                       /\ Json.truthy v && negb (truthy (additionalInfo req)) = true)
            \/ servedFromCache w env req (first :: others) = false)).
Proof.
  destruct (valid (validateVitals (vitals req))) eqn:Hv; [ | left; reflexivity].
  right. destruct (symptoms req) as [ | | [ | first others]] eqn:Hs.
  - left. split; [reflexivity | left; reflexivity].
  - left. split; [reflexivity | right; left; reflexivity].
  - left. split; [reflexivity | right; right; reflexivity].
  - right. exists first, others. repeat split.
    unfold servedFromCache.
    destruct (fst (lookupFor w env req (first :: others))) as [v | ]; [ | right; reflexivity].
    destruct (Json.truthy v && negb (truthy (additionalInfo req))) eqn:Ht;
      [left; exists v; split; [reflexivity | exact Ht] | right; reflexivity].
Qed.

Lemma prepend_prepend (a b : list Event) (o : Outcome) :
  prepend a (prepend b o) = prepend (a ++ b) o.
Proof. unfold prepend. simpl. rewrite app_assoc. reflexivity. Qed.

(** A request reaches the model only on a miss, with symptoms, valid vitals
    and a wearable block that can be formatted. *)
Lemma reaches_inv (w : World) (env : Env) (req : Request) :
  reachesProvider (diagnose w env req) ->
  exists first others wearable,
    valid (validateVitals (vitals req)) = true
    /\ symptoms req = SymptomList (first :: others)
    /\ servedFromCache w env req (first :: others) = false
    /\ wearableString (wearableData req) = Some wearable.
Proof.
  intros (model & prompt & Hin).
  destruct (diagnose_cases w env req)
    as [Hv | [[Hv Hs] | (first & others & Hv & Hs & [(v & Hl & Ht) | Hm])]].
  - rewrite (diagnose_invalid _ _ _ Hv) in Hin. destruct Hin.
  - rewrite (diagnose_no_symptom _ _ _ Hv Hs) in Hin. destruct Hin.
  - rewrite (diagnose_hit _ _ _ _ _ _ Hv Hs Hl Ht) in Hin.
    destruct Hin as [Hin | []]. discriminate Hin.
  - exists first, others.
    rewrite (diagnose_miss _ _ _ _ _ Hv Hs Hm) in Hin.
    unfold invokeModel in Hin.
    destruct (wearableString (wearableData req)) as [wearable | ].
    + exists wearable. auto.
    + destruct Hin as [Hin | []]. discriminate Hin.
Qed.

Lemma diagnose_resolved_of (w : World) (env : Env) (req : Request)
    (first : string) (others : list string) (wearable : list PromptPart)
    (elapsed : Z) (text : option string) :
  valid (validateVitals (vitals req)) = true ->
  symptoms req = SymptomList (first :: others) ->
  servedFromCache w env req (first :: others) = false ->
  wearableString (wearableData req) = Some wearable ->
  provider env = Resolves elapsed text ->
  let l := first :: others in
  diagnose w env req =
    prepend (CacheGet (cacheKeyOf req l)
             :: ProviderCall (selectModel (sort l) (additionalInfo req) (demographics req))
                  (buildPrompt (sort l) (additionalInfo req) (vitals req)
                     (demographics req) wearable)
             :: timerEvents elapsed)
      (afterProvider (afterMiss w (snd (lookupFor w env req l)))
         (now env + elapsed) (uidOf req)
         (selectModel (sort l) (additionalInfo req) (demographics req))
         (cacheKeyOf req l) (sort l) req text).
Proof.
  intros Hv Hs Hm Hw Hp. cbv zeta.
  rewrite (diagnose_miss _ _ _ _ _ Hv Hs Hm).
  unfold invokeModel. rewrite Hw, Hp. rewrite prepend_prepend. reflexivity.
Qed.

Lemma diagnose_resolved (w : World) (env : Env) (req : Request)
    (l : list string) (elapsed : Z) (text : option string) :
  reachesProvider (diagnose w env req) ->
  symptoms req = SymptomList l ->
  provider env = Resolves elapsed text ->
  exists prompt,
    diagnose w env req =
      prepend (CacheGet (cacheKeyOf req l)
               :: ProviderCall (selectModel (sort l) (additionalInfo req) (demographics req))
                    prompt
               :: timerEvents elapsed)
        (afterProvider (afterMiss w (snd (lookupFor w env req l)))
           (now env + elapsed) (uidOf req)
           (selectModel (sort l) (additionalInfo req) (demographics req))
           (cacheKeyOf req l) (sort l) req text).
Proof.
  intros Hr Hs Hp.
  destruct (reaches_inv _ _ _ Hr) as (first & others & wearable & Hv & Hs' & Hm & Hw).
  rewrite Hs in Hs'. injection Hs' as ->.
  rewrite (diagnose_resolved_of _ _ _ _ _ _ _ _ Hv Hs Hm Hw Hp).
  eexists. reflexivity.
Qed.

(** C9, as the code has it.  A request without symptoms (list missing, not
    an array, or empty) is answered before any cache lookup, model call,
    audit row or cache entry: with 400 INCONCLUSIVE_SYMPTOMS when its vitals
    pass validation, and with 422 CONFLICTING_VITALS when they do not, the
    vitals being checked first. *)
Theorem no_symptom_rejected_early (w : World) (env : Env) (req : Request) :
  noSymptomGiven (symptoms req) ->
  (valid (validateVitals (vitals req)) = true ->
     response (diagnose w env req) = Some noSymptoms)
  /\ (valid (validateVitals (vitals req)) = false ->
        response (diagnose w env req)
        = Some (conflictingVitals (validateVitals (vitals req))))
  /\ world (diagnose w env req) = w
  /\ trace (diagnose w env req) = [].
Proof.
  intros Hs.
  destruct (valid (validateVitals (vitals req))) eqn:Hv.
  - rewrite (diagnose_no_symptom _ _ _ Hv Hs). simpl.
    repeat split; try reflexivity. discriminate.
  - rewrite (diagnose_invalid _ _ _ Hv). simpl.
    repeat split; try reflexivity. discriminate.
Qed.

Lemma no_symptom_rejected_early_witness :
  response (diagnose emptyWorld {| now := 0; provider := Pending |} (plainRequest []))
  = Some noSymptoms
  /\ status noSymptoms = 400.
Proof.
  split; [ | reflexivity].
  apply (no_symptom_rejected_early emptyWorld {| now := 0; provider := Pending |}
           (plainRequest [])).
  - right. right. reflexivity.
  - reflexivity.
Defined.

(** C9 as stated fails: with an empty symptom list and a temperature of 50
    the answer is 422 CONFLICTING_VITALS, not 400 INCONCLUSIVE_SYMPTOMS. *)
Lemma no_symptom_but_fever_of_50 :
  let req := vitalsRequest [] (onlyTemperature "50") in
  noSymptomGiven (symptoms req)
  /\ response (diagnose emptyWorld {| now := 0; provider := Pending |} req)
     = Some (conflictingVitals temperatureError)
  /\ response (diagnose emptyWorld {| now := 0; provider := Pending |} req)
     <> Some noSymptoms.
Proof.
  cbv zeta. split; [right; right; reflexivity | ].
  split; [reflexivity | discriminate].
Qed.



(** What the handler does once the model has answered [text]. *)
Lemma afterProvider_parsed (w : World) (finished : Z) (uid model key : string)
    (sorted : list string) (req : Request) (text : option string)
    (diagnosis : Json.value) :
  Json.parse (orElse text "{}") = Some diagnosis ->
  let o := afterProvider w finished uid model key sorted req text in
  let row :=
    {| user_uid := uid; model_used := model;
       input_hash := sha256hex (inputData sorted (additionalInfo req)
                                  (vitalsJson req) (demographicsJson req));
       response_hash := sha256hex (orElse text EmptyString) |} in
  audit_logs (world o) = audit_logs w ++ [row]
  /\ (exists rest, trace o = AuditInsert row :: rest)
  /\ response o <> Some apiTimeout
  /\ (Json.isTruthy (Json.getProperty diagnosis "inconclusive") = true ->
        response o = Some inconclusiveSymptoms /\ trace o = [AuditInsert row]
        /\ diagnosisCache (world o) = diagnosisCache w)
  /\ (truthy (additionalInfo req) = true ->
        diagnosisCache (world o) = diagnosisCache w /\ trace o = [AuditInsert row])
  /\ (forall d, response o = Some (success d) ->
        truthy (additionalInfo req) = false ->
        d = diagnosis
        /\ diagnosisCache (world o) = cacheSet finished key diagnosis (diagnosisCache w)).
Proof.
  intros Hp. unfold afterProvider. rewrite Hp. cbv zeta.
  destruct (Json.getProperty diagnosis "inconclusive") as [ | | flag];
    simpl Json.isTruthy;
    [ | destruct (truthy (additionalInfo req))
      | destruct (Json.truthy flag); [ | destruct (truthy (additionalInfo req))]];
    cbn [response world trace audit_logs diagnosisCache];
    (split; [reflexivity | ]);
    (split; [eexists; reflexivity | ]);
    (split; [discriminate | ]);
    (split; [try discriminate; intros _; auto | ]);
    (split; [try discriminate; intros _; auto | ]);
    intros d Hd Ha; try discriminate;
    injection Hd as ->; split; reflexivity.
Qed.

(** The answer to the caller depends neither on when the model answered
    nor on the state the handler started from. *)
Lemma afterProvider_response (w w' : World) (finished finished' : Z)
    (uid model key : string) (sorted : list string) (req : Request)
    (text : option string) :
  response (afterProvider w finished uid model key sorted req text)
  = response (afterProvider w' finished' uid model key sorted req text).
Proof.
  unfold afterProvider. destruct (Json.parse (orElse text "{}")); [ | reflexivity].
  cbv zeta.
  destruct (Json.getProperty _ _) as [ | | flag]; simpl Json.isTruthy;
    [ | destruct (truthy (additionalInfo req))
      | destruct (Json.truthy flag); [ | destruct (truthy (additionalInfo req))]];
    reflexivity.
Qed.

Lemma timerEvents_late (elapsed : Z) :
  timeoutMs < elapsed -> timerEvents elapsed = [Abort].
Proof.
  intros H. unfold timerEvents.
  destruct (timeoutMs <=? elapsed) eqn:E; [reflexivity | ].
  apply Z.leb_gt in E. lia.
Qed.

(** C5.  When the model's answer parses, the audit row is appended before
    the [inconclusive] flag is read: the caller or the anonymous sentinel,
    the model tier, the SHA-256 of the input payload (the JSON object of the
    symptoms as sorted, the addendum, the vitals and the demographics) and
    the SHA-256 of the raw answer.  When the flag is true the route answers
    422 INCONCLUSIVE_SYMPTOMS, and the audit row is the last thing it did. *)
Theorem inconclusive_answer_audited (w : World) (env : Env) (req : Request)
    (l : list string) (elapsed : Z) (text : option string) (diagnosis : Json.value) :
  reachesProvider (diagnose w env req) ->
  symptoms req = SymptomList l ->
  provider env = Resolves elapsed text ->
  Json.parse (orElse text "{}") = Some diagnosis ->
  let row :=
    {| user_uid := orElse (user req) "anonymous";
       model_used := selectModel (sort l) (additionalInfo req) (demographics req);
       input_hash := sha256hex (inputPayload req l);
       response_hash := sha256hex (orElse text EmptyString) |} in
  (audit_logs (world (diagnose w env req)) = audit_logs w ++ [row]
   /\ In (AuditInsert row) (trace (diagnose w env req)))
  /\ (Json.isTruthy (Json.getProperty diagnosis "inconclusive") = true ->
        response (diagnose w env req)
        = Some {| status := 422;
                  body := ErrorBody "INCONCLUSIVE_SYMPTOMS"
                            (Some "The symptoms provided are too vague for a reliable assessment.")
                            (Some "Try adding more specific symptoms or using the 'Additional Details' field to describe your condition in more detail.") |}
        /\ exists before,
             trace (diagnose w env req) = before ++ [AuditInsert row]).
Proof.
  intros Hr Hs Hp Hparse. cbv zeta.
  change {| user_uid := orElse (user req) "anonymous";
            model_used := selectModel (sort l) (additionalInfo req) (demographics req);
            input_hash := sha256hex (inputPayload req l);
            response_hash := sha256hex (orElse text EmptyString) |}
    with (auditRowOf req l text).
  destruct (diagnose_resolved _ _ _ _ _ _ Hr Hs Hp) as (prompt & ->).
  pose proof (afterProvider_parsed
                (afterMiss w (snd (lookupFor w env req l))) (now env + elapsed)
                (uidOf req)
                (selectModel (sort l) (additionalInfo req) (demographics req))
                (cacheKeyOf req l) (sort l) req text diagnosis Hparse) as H.
  cbv zeta in H. rewrite auditRow_payload in H.
  destruct H as (Ha & (rest & Ht) & _ & Hi & _).
  unfold prepend. cbn [response world trace].
  split; [split | ].
  - exact Ha.
  - rewrite Ht. apply in_or_app. right. left. reflexivity.
  - intros Hflag. destruct (Hi Hflag) as (Hresp & Htr & _).
    split; [exact Hresp | ]. rewrite Htr. eexists. reflexivity.
Qed.

Lemma inconclusive_answer_audited_witness :
  let o := diagnose emptyWorld
             {| now := 0; provider := Resolves 1200 (Some inconclusiveText) |}
             (plainRequest ["Fever"; "Cough"]) in
  response o = Some inconclusiveSymptoms
  /\ audit_logs (world o)
     = [{| user_uid := "anonymous";
           model_used := flashTier;
           input_hash :=
             sha256hex ("{" +:+ quoted "symptoms" +:+ ":[" +:+ quoted "Cough" +:+ ","
                            +:+ quoted "Fever" +:+ "]}");
           response_hash := sha256hex inconclusiveText |}].
Proof.
  cbv zeta.
  destruct (inconclusive_answer_audited emptyWorld
              {| now := 0; provider := Resolves 1200 (Some inconclusiveText) |}
              (plainRequest ["Fever"; "Cough"]) ["Fever"; "Cough"] 1200
              (Some inconclusiveText)
              (Json.JObject
                 [(Json.codeUnits "summary", Json.JString (Json.codeUnits "Too vague."));
                  (Json.codeUnits "inconclusive", Json.JBool true)]))
    as [[Ha _] Hi].
  - vm_compute. eexists. eexists. right. left. reflexivity.
  - reflexivity.
  - reflexivity.
  - vm_compute. reflexivity.
  - split.
    + apply Hi. vm_compute. reflexivity.
    + rewrite Ha. reflexivity.
Defined.

(** C1 (defect of the code).  An answer that arrives after the 25 seconds
    is handled like any other answer: the timer has aborted a controller the
    call never received, the response is not API_TIMEOUT but the one the
    same answer gets when it arrives at once, and when the text parses the
    audit row is written. *)
Theorem late_answer_not_timed_out (w : World) (env : Env) (req : Request)
    (l : list string) (elapsed : Z) (text : option string) :
  reachesProvider (diagnose w env req) ->
  symptoms req = SymptomList l ->
  provider env = Resolves elapsed text ->
  timeoutMs < elapsed ->
  In Abort (trace (diagnose w env req))
  /\ response (diagnose w env req) <> Some apiTimeout
  /\ response (diagnose w env req) = response (diagnose w (promptly env text) req)
  /\ (forall diagnosis,
        Json.parse (orElse text "{}") = Some diagnosis ->
        audit_logs (world (diagnose w env req))
        = audit_logs w ++ [auditRowOf req l text]).
Proof.
  intros Hr Hs Hp Hlate.
  destruct (reaches_inv _ _ _ Hr) as (first & others & wearable & Hv & Hs' & Hm & Hw).
  rewrite Hs in Hs'. injection Hs' as ->.
  rewrite (diagnose_resolved_of w (promptly env text) req first others wearable 0 text
             Hv Hs Hm Hw eq_refl).
  rewrite (diagnose_resolved_of _ _ _ _ _ _ _ _ Hv Hs Hm Hw Hp).
  rewrite (timerEvents_late _ Hlate).
  unfold prepend. cbn [response world trace].
  split; [right; right; left; reflexivity | ].
  split; [ | split; [apply afterProvider_response | ]].
  - unfold afterProvider.
    destruct (Json.parse (orElse text "{}")) as [diagnosis | ] eqn:Hparse.
    + pose proof (afterProvider_parsed
                    (afterMiss w (snd (lookupFor w env req (first :: others))))
                    (now env + elapsed) (uidOf req)
                    (selectModel (sort (first :: others)) (additionalInfo req)
                       (demographics req))
                    (cacheKeyOf req (first :: others)) (sort (first :: others))
                    req text diagnosis Hparse) as H.
      cbv zeta in H. destruct H as (_ & _ & Hne & _).
      unfold afterProvider in Hne. rewrite Hparse in Hne. exact Hne.
    + discriminate.
  - intros diagnosis Hparse.
    pose proof (afterProvider_parsed
                  (afterMiss w (snd (lookupFor w env req (first :: others))))
                  (now env + elapsed) (uidOf req)
                  (selectModel (sort (first :: others)) (additionalInfo req)
                     (demographics req))
                  (cacheKeyOf req (first :: others)) (sort (first :: others))
                  req text diagnosis Hparse) as H.
    cbv zeta in H. rewrite auditRow_payload in H.
    destruct H as (Ha & _). exact Ha.
Qed.

Lemma late_answer_not_timed_out_witness :
  response (diagnose emptyWorld
              {| now := 0; provider := Resolves 30000 (Some conclusiveText) |}
              (plainRequest ["Fever"]))
  <> Some apiTimeout.
Proof.
  refine (proj1 (proj2
    (late_answer_not_timed_out emptyWorld
       {| now := 0; provider := Resolves 30000 (Some conclusiveText) |}
       (plainRequest ["Fever"]) ["Fever"] 30000 (Some conclusiveText)
       _ eq_refl eq_refl _))).
  - vm_compute. eexists. eexists. right. left. reflexivity.
  - reflexivity.
Defined.

(** The failing input of C1, evaluated: an answer after 30 seconds is served
    with status 200 and leaves one audit row. *)
Example late_answer_served :
  let o := diagnose emptyWorld
             {| now := 0; provider := Resolves 30000 (Some conclusiveText) |}
             (plainRequest ["Fever"]) in
  option_map status (response o) = Some 200
  /\ List.length (audit_logs (world o)) = 1%nat
  /\ In Abort (trace o).
Proof. vm_compute. split; [reflexivity | split; [reflexivity | ]]. auto. Qed.

(** A call that never settles leaves the request without any answer. *)
Lemma pending_call_never_answered (w : World) (env : Env) (req : Request) :
  reachesProvider (diagnose w env req) ->
  provider env = Pending ->
  response (diagnose w env req) = None.
Proof.
  intros Hr Hp.
  destruct (reaches_inv _ _ _ Hr) as (first & others & wearable & Hv & Hs & Hm & Hw).
  rewrite (diagnose_miss _ _ _ _ _ Hv Hs Hm).
  unfold invokeModel. rewrite Hw, Hp. reflexivity.
Qed.

(** *** Two calls in a row *)

Lemma cacheGet_live (now : Z) (key : string) (c : gmap string CacheEntry)
    (e : CacheEntry) :
  c !! key = Some e -> now <= expires e ->
  cacheGet now key c = (Some (cached e), c).
Proof.
  intros Hl Ht. unfold cacheGet. rewrite Hl.
  destruct (expires e <? now) eqn:E; [apply Z.ltb_lt in E; lia | reflexivity].
Qed.

Lemma cacheGet_found (now : Z) (key : string) (c : gmap string CacheEntry)
    (v : Json.value) :
  fst (cacheGet now key c) = Some v ->
  snd (cacheGet now key c) = c /\ exists e, c !! key = Some e /\ cached e = v.
Proof.
  unfold cacheGet. destruct (c !! key) as [e | ]; [ | discriminate].
  destruct (expires e <? now); [discriminate | ]. simpl.
  intros H. injection H as <-. eauto.
Qed.

Lemma cacheGet_shrinks (now : Z) (key k : string) (c : gmap string CacheEntry)
    (e : CacheEntry) :
  snd (cacheGet now key c) !! k = Some e -> c !! k = Some e.
Proof.
  unfold cacheGet. destruct (c !! key) as [e' | ]; [ | auto].
  destruct (expires e' <? now); [ | auto]. simpl.
  intros H. apply lookup_delete_Some in H. tauto.
Qed.

Lemma catchError_not_success (name : string) (d : Json.value) :
  Some (catchError name) <> Some (success d).
Proof. unfold catchError. destruct (String.eqb name "AbortError"); discriminate. Qed.

Lemma providerCalls_app (a b : list Event) :
  providerCalls (a ++ b) = (providerCalls a + providerCalls b)%nat.
Proof.
  induction a as [ | x a IH]; [reflexivity | ].
  destruct x; simpl; rewrite IH; reflexivity.
Qed.

Lemma providerCalls_timer (elapsed : Z) : providerCalls (timerEvents elapsed) = 0%nat.
Proof. unfold timerEvents. destruct (timeoutMs <=? elapsed); reflexivity. Qed.

Lemma no_CacheSet_timer (elapsed : Z) (k : string) :
  ~ In (CacheSet k) (timerEvents elapsed).
Proof.
  unfold timerEvents. destruct (timeoutMs <=? elapsed); simpl; [ | tauto].
  intros [H | []]. discriminate H.
Qed.

Lemma afterProvider_calls (w : World) (finished : Z) (uid model key : string)
    (sorted : list string) (req : Request) (text : option string) :
  providerCalls (trace (afterProvider w finished uid model key sorted req text)) = 0%nat.
Proof.
  unfold afterProvider. destruct (Json.parse (orElse text "{}")); [ | reflexivity].
  cbv zeta.
  destruct (Json.getProperty _ _) as [ | | flag]; simpl Json.isTruthy;
    [ | destruct (truthy (additionalInfo req))
      | destruct (Json.truthy flag); [ | destruct (truthy (additionalInfo req))]];
    reflexivity.
Qed.

Lemma afterProvider_addendum (w : World) (finished : Z) (uid model key : string)
    (sorted : list string) (req : Request) (text : option string) :
  truthy (additionalInfo req) = true ->
  diagnosisCache (world (afterProvider w finished uid model key sorted req text))
  = diagnosisCache w
  /\ forall k, ~ In (CacheSet k)
                 (trace (afterProvider w finished uid model key sorted req text)).
Proof.
  intros Ha. unfold afterProvider.
  destruct (Json.parse (orElse text "{}")); [ | simpl; tauto].
  cbv zeta. rewrite Ha.
  destruct (Json.getProperty _ _) as [ | | flag]; simpl Json.isTruthy;
    [ | | destruct (Json.truthy flag)];
    simpl; (split; [reflexivity | ]); intros k [H | []]; discriminate H.
Qed.

Lemma invokeModel_calls (w : World) (env : Env) (uid key : string)
    (sorted : list string) (req : Request) :
  (providerCalls (trace (invokeModel w env uid key sorted req)) <= 1)%nat.
Proof.
  unfold invokeModel.
  destruct (wearableString (wearableData req)); [ | simpl; lia].
  destruct (provider env) as [elapsed text | elapsed name | ].
  - unfold prepend. cbn [trace]. rewrite providerCalls_app. simpl.
    rewrite providerCalls_timer, afterProvider_calls. lia.
  - simpl. lia.
  - simpl. lia.
Qed.

Lemma diagnose_calls (w : World) (env : Env) (req : Request) :
  (providerCalls (trace (diagnose w env req)) <= 1)%nat.
Proof.
  destruct (diagnose_cases w env req)
    as [Hv | [[Hv Hs] | (first & others & Hv & Hs & [(v & Hl & Ht) | Hm])]].
  - rewrite (diagnose_invalid _ _ _ Hv). simpl. lia.
  - rewrite (diagnose_no_symptom _ _ _ Hv Hs). simpl. lia.
  - rewrite (diagnose_hit _ _ _ _ _ _ Hv Hs Hl Ht). simpl. lia.
  - rewrite (diagnose_miss _ _ _ _ _ Hv Hs Hm). unfold prepend. cbn [trace].
    simpl. apply invokeModel_calls.
Qed.

Lemma invokeModel_addendum (w : World) (env : Env) (uid key : string)
    (sorted : list string) (req : Request) (wearable : list PromptPart) :
  truthy (additionalInfo req) = true ->
  wearableString (wearableData req) = Some wearable ->
  diagnosisCache (world (invokeModel w env uid key sorted req)) = diagnosisCache w
  /\ (forall k, ~ In (CacheSet k) (trace (invokeModel w env uid key sorted req)))
  /\ reachesProvider (invokeModel w env uid key sorted req).
Proof.
  intros Ha Hw. unfold invokeModel, reachesProvider. rewrite Hw.
  destruct (provider env) as [elapsed text | elapsed name | ].
  - destruct (afterProvider_addendum w (now env + elapsed) uid
                (selectModel sorted (additionalInfo req) (demographics req))
                key sorted req text Ha) as [Hc Hn].
    unfold prepend. cbn [world trace]. split; [exact Hc | ]. split.
    + intros k [H | H]; [discriminate H | ].
      apply in_app_or in H. destruct H as [H | H];
        [exact (no_CacheSet_timer _ _ H) | exact (Hn _ H)].
    + eexists. eexists. left. reflexivity.
  - simpl. split; [reflexivity | ]. split.
    + intros k [H | [H | []]]; discriminate H.
    + eexists. eexists. left. reflexivity.
  - simpl. split; [reflexivity | ]. split.
    + intros k [H | [H | []]]; discriminate H.
    + eexists. eexists. left. reflexivity.
Qed.

(** A 200 answer to a request without addendum leaves its payload in the
    cache under the key of the request. *)
Lemma success_is_cached (w : World) (env : Env) (req : Request)
    (first : string) (others : list string) (d : Json.value) :
  symptoms req = SymptomList (first :: others) ->
  truthy (additionalInfo req) = false ->
  response (diagnose w env req) = Some (success d) ->
  valid (validateVitals (vitals req)) = true
  /\ exists e,
       diagnosisCache (world (diagnose w env req)) !! cacheKeyOf req (first :: others)
       = Some e
       /\ cached e = d.
Proof.
  intros Hs Ha Hr.
  destruct (diagnose_cases w env req)
    as [Hv | [[Hv Hn] | (f & o & Hv & Hs' & Hc)]].
  - rewrite (diagnose_invalid _ _ _ Hv) in Hr. discriminate Hr.
  - rewrite (diagnose_no_symptom _ _ _ Hv Hn) in Hr. discriminate Hr.
  - rewrite Hs in Hs'. injection Hs' as <- <-. split; [exact Hv | ].
    destruct Hc as [(v & Hl & Ht) | Hm].
    + rewrite (diagnose_hit _ _ _ _ _ _ Hv Hs Hl Ht) in Hr |- *.
      simpl in Hr. injection Hr as ->. cbn [world afterHit diagnosisCache].
      destruct (cacheGet_found _ _ _ _ Hl) as (Hc & e & He & Hd).
      unfold lookupFor in *. rewrite Hc. eauto.
    + rewrite (diagnose_miss _ _ _ _ _ Hv Hs Hm) in Hr |- *.
      unfold prepend in *. cbn [response world] in *.
      unfold invokeModel in *.
      destruct (wearableString (wearableData req));
        [ | exfalso; exact (catchError_not_success _ _ Hr)].
      destruct (provider env) as [elapsed text | elapsed name | ].
      * unfold prepend in *. cbn [response world] in *.
        destruct (Json.parse (orElse text "{}")) as [diagnosis | ] eqn:Hp.
        -- pose proof (afterProvider_parsed
                         (afterMiss w (snd (lookupFor w env req (first :: others))))
                         (now env + elapsed) (uidOf req)
                         (selectModel (sort (first :: others)) (additionalInfo req)
                            (demographics req))
                         (cacheKeyOf req (first :: others)) (sort (first :: others))
                         req text diagnosis Hp) as H.
           cbv zeta in H. destruct H as (_ & _ & _ & _ & _ & H).
           destruct (H d Hr Ha) as [-> Hc]. rewrite Hc.
           unfold cacheSet. rewrite lookup_insert_eq. eauto.
        -- unfold afterProvider in Hr. rewrite Hp in Hr.
           exfalso. exact (catchError_not_success _ _ Hr).
      * exfalso. exact (catchError_not_success _ _ Hr).
      * discriminate Hr.
Qed.

(** After a miss, the entry written for a 200 answer expires six hours
    after the model answered. *)
Lemma cached_answer_expiry (w : World) (env : Env) (req : Request)
    (first : string) (others : list string) (elapsed : Z) (text : option string)
    (d : Json.value) :
  reachesProvider (diagnose w env req) ->
  symptoms req = SymptomList (first :: others) ->
  provider env = Resolves elapsed text ->
  truthy (additionalInfo req) = false ->
  response (diagnose w env req) = Some (success d) ->
  diagnosisCache (world (diagnose w env req)) !! cacheKeyOf req (first :: others)
  = Some {| cached := d; expires := now env + elapsed + 21600000 |}.
Proof.
  intros Hr Hs Hp Ha Hresp.
  destruct (diagnose_resolved _ _ _ _ _ _ Hr Hs Hp) as (prompt & E).
  rewrite E in Hresp |- *. unfold prepend in *. cbn [response world] in *.
  destruct (Json.parse (orElse text "{}")) as [diagnosis | ] eqn:Hparse.
  - pose proof (afterProvider_parsed
                  (afterMiss w (snd (lookupFor w env req (first :: others))))
                  (now env + elapsed) (uidOf req)
                  (selectModel (sort (first :: others)) (additionalInfo req)
                     (demographics req))
                  (cacheKeyOf req (first :: others)) (sort (first :: others))
                  req text diagnosis Hparse) as H.
    cbv zeta in H. destruct H as (_ & _ & _ & _ & _ & H).
    destruct (H d Hresp Ha) as [-> Hc]. rewrite Hc.
    unfold cacheSet. rewrite lookup_insert_eq. reflexivity.
  - unfold afterProvider in Hresp. rewrite Hparse in Hresp.
    exfalso. exact (catchError_not_success _ _ Hresp).
Qed.

(** C4, as the code has it.  A request with valid vitals and a non-empty
    symptom list is sent twice, the second time to the state the first call
    left.
    - Without addendum (absent or empty): if the first call answered 200
      with a truthy payload and the second call arrives before the cache
      entry of the request expires, the second call is a cache hit: it only
      looks the key up, returns the same response, and the model is called
      at most once over the two calls.
    - With a non-empty addendum (and a wearable block that can be
      formatted): both calls reach the model; the key is still looked up,
      but the result is discarded, no entry is written, and every entry the
      cache holds afterwards was there before. *)
Theorem repeated_request (w : World) (env1 env2 : Env) (req : Request)
    (first : string) (others : list string) :
  valid (validateVitals (vitals req)) = true ->
  symptoms req = SymptomList (first :: others) ->
  let key := cacheKeyOf req (first :: others) in
  let o1 := diagnose w env1 req in
  let o2 := diagnose (world o1) env2 req in
  (truthy (additionalInfo req) = false ->
   forall d,
     response o1 = Some (success d) ->
     Json.truthy d = true ->
     (forall e, diagnosisCache (world o1) !! key = Some e -> now env2 <= expires e) ->
     response o2 = response o1
     /\ trace o2 = [CacheGet key]
     /\ (providerCalls (trace o1) + providerCalls (trace o2) <= 1)%nat)
  /\ (truthy (additionalInfo req) = true ->
      (exists wearable, wearableString (wearableData req) = Some wearable) ->
      reachesProvider o1 /\ reachesProvider o2
      /\ In (CacheGet key) (trace o1) /\ In (CacheGet key) (trace o2)
      /\ (forall k, ~ In (CacheSet k) (trace o1) /\ ~ In (CacheSet k) (trace o2))
      /\ (forall k e, diagnosisCache (world o2) !! k = Some e ->
                      diagnosisCache w !! k = Some e)).
Proof.
  intros Hv Hs key o1 o2. split.
  - intros Ha d Hr Ht Httl.
    destruct (success_is_cached _ _ _ _ _ _ Hs Ha Hr) as (_ & e & He & Hd).
    fold o1 key in He.
    assert (Hl : lookupFor (world o1) env2 req (first :: others)
                 = (Some d, diagnosisCache (world o1))).
    { unfold lookupFor. fold key. rewrite <- Hd.
      apply cacheGet_live; [exact He | exact (Httl _ He)]. }
    assert (Hhit : Json.truthy d && negb (truthy (additionalInfo req)) = true)
      by (rewrite Ht, Ha; reflexivity).
    assert (E2 : o2 = {| response := Some (success d);
                         world := afterHit (world o1) (diagnosisCache (world o1));
                         trace := [CacheGet key] |}).
    { unfold o2. rewrite (diagnose_hit (world o1) env2 req first others d Hv Hs);
        [rewrite Hl; reflexivity | rewrite Hl; reflexivity | exact Hhit]. }
    rewrite E2. cbn [response trace]. split; [symmetry; exact Hr | ].
    split; [reflexivity | ].
    pose proof (diagnose_calls w env1 req) as Hc. fold o1 in Hc. simpl. lia.
  - intros Ha (wearable & Hw).
    assert (Hm : forall w' env', servedFromCache w' env' req (first :: others) = false).
    { intros w' env'. unfold servedFromCache. rewrite Ha.
      destruct (fst _); [apply andb_false_r | reflexivity]. }
    assert (E1 : o1 = prepend [CacheGet key]
                        (invokeModel (afterMiss w (snd (lookupFor w env1 req (first :: others))))
                           env1 (uidOf req) key (sort (first :: others)) req))
      by (apply diagnose_miss; auto).
    assert (E2 : o2 = prepend [CacheGet key]
                        (invokeModel
                           (afterMiss (world o1)
                              (snd (lookupFor (world o1) env2 req (first :: others))))
                           env2 (uidOf req) key (sort (first :: others)) req))
      by (apply diagnose_miss; auto).
    destruct (invokeModel_addendum
                (afterMiss w (snd (lookupFor w env1 req (first :: others))))
                env1 (uidOf req) key (sort (first :: others)) req wearable Ha Hw)
      as (Hc1 & Hn1 & (m1 & p1 & Hp1)).
    destruct (invokeModel_addendum
                (afterMiss (world o1)
                   (snd (lookupFor (world o1) env2 req (first :: others))))
                env2 (uidOf req) key (sort (first :: others)) req wearable Ha Hw)
      as (Hc2 & Hn2 & (m2 & p2 & Hp2)).
    assert (W1 : diagnosisCache (world o1)
                 = snd (lookupFor w env1 req (first :: others)))
      by (rewrite E1; exact Hc1).
    assert (W2 : diagnosisCache (world o2)
                 = snd (lookupFor (world o1) env2 req (first :: others)))
      by (rewrite E2; exact Hc2).
    split; [exists m1, p1; rewrite E1; right; exact Hp1 | ].
    split; [exists m2, p2; rewrite E2; right; exact Hp2 | ].
    split; [rewrite E1; left; reflexivity | ].
    split; [rewrite E2; left; reflexivity | ].
    split.
    + intros k. split.
      * rewrite E1. intros [H | H]; [discriminate H | exact (Hn1 _ H)].
      * rewrite E2. intros [H | H]; [discriminate H | exact (Hn2 _ H)].
    + intros k e H. rewrite W2 in H. unfold lookupFor in H.
      apply cacheGet_shrinks in H. rewrite W1 in H. unfold lookupFor in H.
      apply cacheGet_shrinks in H. exact H.
Qed.

Lemma repeated_request_witness :
  let plain := plainRequest ["Fever"; "Cough"] in
  let noted := withAddendum ["Fever"; "Cough"] "It started two days ago." in
  let env1 := {| now := 0; provider := Resolves 1200 (Some conclusiveText) |} in
  let env2 := {| now := 5000; provider := Resolves 900 (Some conclusiveText) |} in
  let o1 := diagnose emptyWorld env1 plain in
  let o2 := diagnose (world o1) env2 plain in
  let a1 := diagnose emptyWorld env1 noted in
  let a2 := diagnose (world a1) env2 noted in
  (response o2 = response o1
   /\ (providerCalls (trace o1) + providerCalls (trace o2) <= 1)%nat)
  /\ (reachesProvider a1 /\ reachesProvider a2).
Proof.
  cbv zeta. split.
  - pose proof (proj1 (repeated_request emptyWorld
              {| now := 0; provider := Resolves 1200 (Some conclusiveText) |}
              {| now := 5000; provider := Resolves 900 (Some conclusiveText) |}
              (plainRequest ["Fever"; "Cough"]) "Fever" ["Cough"]
              eq_refl eq_refl) eq_refl
            (Json.JObject
               [(Json.codeUnits "summary",
                 Json.JString (Json.codeUnits "Likely a common cold."));
                (Json.codeUnits "inconclusive", Json.JBool false)])) as H.
    cbv zeta in H.
    assert (H1 : response (diagnose emptyWorld
                   {| now := 0; provider := Resolves 1200 (Some conclusiveText) |}
                   (plainRequest ["Fever"; "Cough"]))
                 = Some (success (Json.JObject
                     [(Json.codeUnits "summary",
                       Json.JString (Json.codeUnits "Likely a common cold."));
                      (Json.codeUnits "inconclusive", Json.JBool false)])))
      by (vm_compute; reflexivity).
    specialize (H H1 eq_refl).
    assert (H2 : forall e,
               diagnosisCache (world (diagnose emptyWorld
                   {| now := 0; provider := Resolves 1200 (Some conclusiveText) |}
                   (plainRequest ["Fever"; "Cough"])))
               !! cacheKeyOf (plainRequest ["Fever"; "Cough"]) ["Fever"; "Cough"]
               = Some e -> 5000 <= expires e).
    { intros e. vm_compute. intros He. injection He as <-. discriminate. }
    destruct (H H2) as (Hresp & _ & Hcalls). split; assumption.
  - destruct (proj2 (repeated_request emptyWorld
              {| now := 0; provider := Resolves 1200 (Some conclusiveText) |}
              {| now := 5000; provider := Resolves 900 (Some conclusiveText) |}
              (withAddendum ["Fever"; "Cough"] "It started two days ago.")
              "Fever" ["Cough"] eq_refl eq_refl) eq_refl
            (ex_intro _ [Text EmptyString] eq_refl)) as (H1 & H2 & _).
    split; assumption.
Defined.

(** C4 as stated fails: the first answer is inconclusive, so nothing is
    cached; the same request, half a second after the first answer, calls
    the model again and gets another response. *)
Lemma inconclusive_answer_not_cached :
  let req := plainRequest ["Fever"; "Cough"] in
  let o1 := diagnose emptyWorld
              {| now := 0; provider := Resolves 1200 (Some inconclusiveText) |} req in
  let o2 := diagnose (world o1)
              {| now := 1700; provider := Resolves 1200 (Some conclusiveText) |} req in
  additionalInfo req = None
  /\ 1700 <= 0 + 1200 + stdTTL * 1000
  /\ providerCalls (trace o1) = 1%nat
  /\ providerCalls (trace o2) = 1%nat
  /\ option_map status (response o1) = Some 422
  /\ option_map status (response o2) = Some 200
  /\ response o1 <> response o2.
Proof.
  cbv zeta. split; [reflexivity | ]. split; [vm_compute; discriminate | ].
  vm_compute. repeat (split; [reflexivity | ]). discriminate.
Qed.

End Orchestrator.

(** * Properties of the cache key *)

Section CacheKey.
Import JS Crypto MedicalLogic Server Props.

#[local] Arguments String.append !_ _ / : simpl nomatch.

(** *** The order on strings *)

Lemma ascii_compare_refl (a : ascii) : Ascii.compare a a = Eq.
Proof. unfold Ascii.compare. apply N.compare_refl. Qed.

Lemma ascii_compare_lt_trans (a b c : ascii) :
  Ascii.compare a b = Lt -> Ascii.compare b c = Lt -> Ascii.compare a c = Lt.
Proof.
  unfold Ascii.compare. rewrite !N.compare_lt_iff. lia.
Qed.

Lemma leb_cons (a b : ascii) (s t : string) :
  String.leb (String a s) (String b t)
  = match Ascii.compare a b with
    | Eq => String.leb s t
    | Lt => true
    | Gt => false
    end.
Proof. unfold String.leb. simpl. destruct (Ascii.compare a b); reflexivity. Qed.

Lemma leb_trans (s1 s2 s3 : string) :
  String.leb s1 s2 = true -> String.leb s2 s3 = true -> String.leb s1 s3 = true.
Proof.
  revert s2 s3. induction s1 as [ | c1 s1 IH]; intros s2 s3 H12 H23.
  - destruct s3; reflexivity.
  - destruct s2 as [ | c2 s2]; [discriminate H12 | ].
    destruct s3 as [ | c3 s3]; [discriminate H23 | ].
    rewrite leb_cons in *.
    destruct (Ascii.compare c1 c2) eqn:E12; try discriminate;
      destruct (Ascii.compare c2 c3) eqn:E23; try discriminate.
    + apply Ascii.compare_eq_iff in E12, E23. subst.
      rewrite ascii_compare_refl. eauto.
    + apply Ascii.compare_eq_iff in E12. subst. rewrite E23. reflexivity.
    + apply Ascii.compare_eq_iff in E23. subst. rewrite E12. reflexivity.
    + rewrite (ascii_compare_lt_trans _ _ _ E12 E23). reflexivity.
Qed.

(** *** Sorting *)

Lemma insertSorted_comm (a b : string) (l : list string) :
  insertSorted a (insertSorted b l) = insertSorted b (insertSorted a l).
Proof.
  induction l as [ | y l IH]; simpl.
  - destruct (String.leb a b) eqn:Hab, (String.leb b a) eqn:Hba; try reflexivity.
    + rewrite (String.leb_antisym _ _ Hab Hba). reflexivity.
    + destruct (String.leb_total a b); congruence.
  - destruct (String.leb a y) eqn:Hay, (String.leb b y) eqn:Hby; simpl;
      rewrite ?Hay, ?Hby.
    + destruct (String.leb a b) eqn:Hab, (String.leb b a) eqn:Hba; try reflexivity.
      * rewrite (String.leb_antisym _ _ Hab Hba). reflexivity.
      * destruct (String.leb_total a b); congruence.
    + destruct (String.leb b a) eqn:Hba; [ | reflexivity].
      rewrite (leb_trans _ _ _ Hba Hay) in Hby. discriminate.
    + destruct (String.leb a b) eqn:Hab; [ | reflexivity].
      rewrite (leb_trans _ _ _ Hab Hby) in Hay. discriminate.
    + rewrite IH. reflexivity.
Qed.

Lemma sort_permutation (l1 l2 : list string) :
  Permutation l1 l2 -> sort l1 = sort l2.
Proof.
  unfold sort. induction 1 as [ | x l l' _ IH | x y l | l l' l'' _ IH1 _ IH2]; simpl.
  - reflexivity.
  - rewrite IH. reflexivity.
  - apply insertSorted_comm.
  - congruence.
Qed.

Lemma insertSorted_perm (x : string) (l : list string) :
  Permutation (x :: l) (insertSorted x l).
Proof.
  induction l as [ | y l IH]; simpl; [reflexivity | ].
  destruct (String.leb x y); [reflexivity | ].
  rewrite perm_swap. apply perm_skip. exact IH.
Qed.

Lemma sort_is_permutation (l : list string) : Permutation l (sort l).
Proof.
  unfold sort. induction l as [ | x l IH]; simpl; [reflexivity | ].
  rewrite <- insertSorted_perm. apply perm_skip. exact IH.
Qed.

(** *** [JSON.stringify] of a string can be read back *)

Lemma append_inv_head (a x y : string) : a +:+ x = a +:+ y -> x = y.
Proof.
  induction a as [ | c a IH]; simpl; [auto | ].
  intros H. injection H as H. auto.
Qed.

Lemma parse_quoteChar (c : ascii) (rest : string) :
  Json.parseStringBody (quoteChar c +:+ rest)
  = Json.consTo (code c) (Json.parseStringBody rest).
Proof. destruct c as [[] [] [] [] [] [] [] []]; reflexivity. Qed.

Lemma parse_quoteBody (s rest : string) :
  Json.parseStringBody (quoteBody s +:+ rest) = Some (Json.codeUnits s, rest).
Proof.
  induction s as [ | c s IH]; [reflexivity | ].
  change (quoteBody (String c s)) with (quoteChar c +:+ quoteBody s).
  rewrite append_assoc, parse_quoteChar, IH. reflexivity.
Qed.

Lemma code_inj (a b : ascii) : code a = code b -> a = b.
Proof.
  unfold code. intros H. apply N2Z.inj in H.
  rewrite <- (ascii_N_embedding a), <- (ascii_N_embedding b), H. reflexivity.
Qed.

Lemma codeUnits_inj (s t : string) : Json.codeUnits s = Json.codeUnits t -> s = t.
Proof.
  unfold Json.codeUnits. revert t.
  induction s as [ | a s IH]; intros [ | b t] H; simpl in H; try discriminate.
  - reflexivity.
  - injection H as Hc Hr. rewrite (code_inj _ _ Hc), (IH _ Hr). reflexivity.
Qed.

(** A quoted string followed by anything determines the string and what
    follows. *)
Lemma quote_inj (s t x y : string) :
  quote s +:+ x = quote t +:+ y -> s = t /\ x = y.
Proof.
  unfold quote. simpl. intros H. injection H as H.
  pose proof (parse_quoteBody s x) as Hs. rewrite H, parse_quoteBody in Hs.
  injection Hs as Hu Hr. split; [apply codeUnits_inj | ]; congruence.
Qed.

Lemma stringifyElements_cons (x : string) (l : list string) :
  stringifyElements (x :: l)
  = quote x +:+ match l with
                | [] => "]"
                | _ :: _ => "," +:+ stringifyElements l
                end.
Proof. destruct l; reflexivity. Qed.

Lemma stringifyElements_inj (l1 l2 : list string) (x y : string) :
  stringifyElements l1 +:+ x = stringifyElements l2 +:+ y -> l1 = l2 /\ x = y.
Proof.
  revert l2. induction l1 as [ | a l1 IH]; intros [ | b l2] H.
  - simpl in H. injection H as H. auto.
  - rewrite stringifyElements_cons in H. discriminate H.
  - rewrite stringifyElements_cons in H. discriminate H.
  - rewrite !stringifyElements_cons, !append_assoc in H.
    apply quote_inj in H. destruct H as [-> H].
    destruct l1 as [ | a1 l1], l2 as [ | b1 l2]; try discriminate H.
    + simpl in H. injection H as H. auto.
    + rewrite !append_assoc in H. apply (append_inv_head ",") in H.
      destruct (IH _ H) as [E ->]. rewrite E. auto.
Qed.

Lemma joinWith_cons (sep x y : string) (l : list string) :
  joinWith sep (x :: y :: l) = x +:+ sep +:+ joinWith sep (y :: l).
Proof. reflexivity. Qed.

(** The hashed text: a fixed opening, the sorted symptoms, and a closing
    that depends on the vitals and the demographics alone. *)
Lemma cacheKeyData_shape (v d : option string) :
  exists closing, forall l,
    cacheKeyData l v d
    = ("{" +:+ quote "symptoms" +:+ ":[") +:+ (stringifyElements (sort l) +:+ closing).
Proof.
  unfold cacheKeyData, stringifyObject, stringifyArray.
  set (rest := stringifyMember "vitals" v ++ stringifyMember "demographics" d).
  destruct rest as [ | m ms].
  - exists "}". intros l. cbn [app joinWith].
    rewrite !append_assoc. reflexivity.
  - exists ("," +:+ joinWith "," (m :: ms) +:+ "}"). intros l. cbn [app].
    rewrite joinWith_cons. rewrite !append_assoc. reflexivity.
Qed.

Lemma cacheKeyData_inj (l1 l2 : list string) (v d : option string) :
  cacheKeyData l1 v d = cacheKeyData l2 v d -> sort l1 = sort l2.
Proof.
  destruct (cacheKeyData_shape v d) as (closing & Hshape).
  rewrite !Hshape. intros H. apply append_inv_head in H.
  apply stringifyElements_inj in H. tauto.
Qed.

(** C2, as the code has it.  The key depends on the symptoms through their
    sorted list: every permutation of a symptom list gives the same key
    (and leaves the same sorted array behind), with the same vitals and
    demographics, which enter as the texts [JSON.stringify] writes for
    them.  Duplicates are kept, not collapsed: two lists are hashed
    from the same text only if they are permutations of each other, so two
    lists that differ as multisets have different keys unless SHA-256
    collides on their texts. *)
Theorem cache_key_of_permutation (l1 l2 : list string) (v d : option string) :
  fst (getCacheKey l1 v d) = sha256hex (cacheKeyData l1 v d)
  /\ (Permutation l1 l2 -> getCacheKey l1 v d = getCacheKey l2 v d)
  /\ (cacheKeyData l1 v d = cacheKeyData l2 v d -> Permutation l1 l2).
Proof.
  split; [reflexivity | split].
  - intros Hp. unfold getCacheKey, cacheKeyData.
    rewrite (sort_permutation _ _ Hp). reflexivity.
  - intros H. apply cacheKeyData_inj in H.
    rewrite (sort_is_permutation l1), H. symmetry. apply sort_is_permutation.
Qed.

Lemma cache_key_of_permutation_witness :
  getCacheKey ["Fever"; "Cough"; "Headache"] None None
  = getCacheKey ["Headache"; "Fever"; "Cough"] None None.
Proof.
  apply (proj1 (proj2 (cache_key_of_permutation ["Fever"; "Cough"; "Headache"]
                         ["Headache"; "Fever"; "Cough"] None None))).
  apply (perm_trans (l' := ["Fever"; "Headache"; "Cough"])).
  - apply perm_skip. apply perm_swap.
  - apply perm_swap.
Defined.

(** C2 as stated fails: a list with a duplicate and its deduplicated list
    have different keys. *)
Lemma duplicate_symptom_changes_key :
  nodup string_dec ["Fever"; "Fever"] = ["Fever"]
  /\ fst (getCacheKey ["Fever"; "Fever"] None None)
     <> fst (getCacheKey ["Fever"] None None).
Proof. split; [reflexivity | vm_compute; discriminate]. Qed.

End CacheKey.

(** * The risk score *)

Section RiskScore.
Import JS MedicalLogic Terms.

Lemma riskStep_tier (e u : bool) (c : Condition) :
  riskStep (tierOf e u) c
  = tierOf (e || hasUrgencyb "Emergency" [c]) (u || hasUrgencyb "Urgent" [c]).
Proof.
  unfold riskStep, hasUrgencyb. simpl existsb.
  destruct (urgency c) as [x | ]; [ | rewrite !orb_false_r; reflexivity].
  rewrite !orb_false_r.
  destruct (String.eqb x "Emergency") eqn:E1.
  { apply String.eqb_eq in E1. subst x. destruct e, u; reflexivity. }
  destruct (String.eqb x "Urgent") eqn:E2.
  { apply String.eqb_eq in E2. subst x. destruct e, u; reflexivity. }
  assert (Hl : levels (Some x) = if String.eqb x "Routine" then ofZ 1 else NaN)
    by (unfold levels; rewrite E1, E2; reflexivity).
  rewrite Hl, !orb_false_r.
  destruct (String.eqb x "Routine"); destruct e, u; reflexivity.
Qed.

Lemma risk_fold (cs : list Condition) (e u : bool) :
  fold_left riskStep cs (tierOf e u)
  = tierOf (e || hasUrgencyb "Emergency" cs) (u || hasUrgencyb "Urgent" cs).
Proof.
  revert e u. induction cs as [ | c cs IH]; intros e u.
  - simpl. rewrite !orb_false_r. reflexivity.
  - simpl fold_left. rewrite riskStep_tier, IH.
    unfold hasUrgencyb. simpl existsb. rewrite !orb_false_r, !orb_assoc. reflexivity.
Qed.

Lemma risk_tier (cs : list Condition) :
  calculateRiskScore cs
  = tierOf (hasUrgencyb "Emergency" cs) (hasUrgencyb "Urgent" cs).
Proof. exact (risk_fold cs false false). Qed.

Lemma hasUrgency_reflect (u : string) (cs : list Condition) :
  hasUrgencyb u cs = true <-> hasUrgency u cs.
Proof.
  unfold hasUrgencyb, hasUrgency. rewrite existsb_exists. split.
  - intros (c & Hin & Hc). exists c. split; [exact Hin | ].
    destruct (urgency c) as [x | ]; [ | discriminate].
    apply String.eqb_eq in Hc. subst. reflexivity.
  - intros (c & Hin & Hc). exists c. split; [exact Hin | ].
    rewrite Hc. apply String.eqb_refl.
Qed.

Lemma hasUrgencyb_perm (u : string) (a b : list Condition) :
  Permutation a b -> hasUrgencyb u a = hasUrgencyb u b.
Proof.
  unfold hasUrgencyb.
  induction 1 as [ | x l l' _ IH | x y l | l l' l'' _ IH1 _ IH2]; simpl.
  - reflexivity.
  - rewrite IH. reflexivity.
  - rewrite !orb_assoc, (orb_comm (match urgency y with Some x0 => _ | None => _ end)).
    reflexivity.
  - congruence.
Qed.

(** X1.  [calculateRiskScore] returns the highest of the three known tiers
    that occurs among the conditions: Emergency exactly when some condition
    is an emergency, Urgent exactly when some is urgent and none an
    emergency, Routine exactly when none is either.  A condition whose
    urgency is missing or is no known tier is passed over, so the result is
    always one of the three. *)
Theorem risk_score_is_highest_tier (cs : list Condition) :
  (calculateRiskScore cs = "Emergency" <-> hasUrgency "Emergency" cs)
  /\ (calculateRiskScore cs = "Urgent"
      <-> hasUrgency "Urgent" cs /\ ~ hasUrgency "Emergency" cs)
  /\ (calculateRiskScore cs = "Routine"
      <-> ~ hasUrgency "Urgent" cs /\ ~ hasUrgency "Emergency" cs)
  /\ In (calculateRiskScore cs) ["Routine"; "Urgent"; "Emergency"].
Proof.
  rewrite risk_tier, <- !hasUrgency_reflect.
  destruct (hasUrgencyb "Emergency" cs), (hasUrgencyb "Urgent" cs); simpl;
    (split; [ | split; [ | split]]); try tauto;
    split; try discriminate; try tauto; try reflexivity;
    intros; try (intuition discriminate).
Qed.

(** X2.  The risk score of two lists put together is the higher of their
    scores, and the order of the conditions does not matter. *)
Theorem risk_score_combines (a b : list Condition) :
  calculateRiskScore (a ++ b) = higher (calculateRiskScore a) (calculateRiskScore b)
  /\ (forall c, Permutation a c -> calculateRiskScore a = calculateRiskScore c).
Proof.
  split.
  - rewrite !risk_tier. unfold hasUrgencyb. rewrite !existsb_app.
    fold (hasUrgencyb "Emergency" a) (hasUrgencyb "Emergency" b)
         (hasUrgencyb "Urgent" a) (hasUrgencyb "Urgent" b).
    destruct (hasUrgencyb "Emergency" a), (hasUrgencyb "Emergency" b),
      (hasUrgencyb "Urgent" a), (hasUrgencyb "Urgent" b); reflexivity.
  - intros c Hp. rewrite !risk_tier.
    rewrite (hasUrgencyb_perm _ _ _ Hp), (hasUrgencyb_perm "Urgent" _ _ Hp). reflexivity.
Qed.

End RiskScore.

(** * The symptom selection of the client *)

Section Selection.
Import Client.

Lemma includes_In (x : string) (l : list string) :
  includes x l = true <-> In x l.
Proof.
  unfold includes. rewrite existsb_exists. split.
  - intros (y & Hin & He). apply String.eqb_eq in He. subst. exact Hin.
  - intros Hin. exists x. split; [exact Hin | apply String.eqb_refl].
Qed.

Lemma toggle_In (s x : string) (prev : list string) :
  In x (toggleSymptom s prev)
  <-> (x = s /\ ~ In s prev) \/ (x <> s /\ In x prev).
Proof.
  unfold toggleSymptom. destruct (includes s prev) eqn:E.
  - apply includes_In in E. rewrite List.filter_In, negb_true_iff, String.eqb_neq.
    split.
    + intros [Hin Hne]. right. split; assumption.
    + intros [[-> Hn] | [Hne Hin]]; [contradiction | split; assumption].
  - assert (Hn : ~ In s prev) by (rewrite <- includes_In, E; discriminate).
    rewrite in_app_iff. simpl. split.
    + intros [Hin | [<- | []]].
      * right. split; [intros ->; contradiction | exact Hin].
      * left. split; [reflexivity | exact Hn].
    + intros [[-> _] | [_ Hin]]; [right; left; reflexivity | left; exact Hin].
Qed.

Lemma NoDup_snoc (s : string) (l : list string) :
  List.NoDup l -> ~ In s l -> List.NoDup (l ++ [s]).
Proof.
  induction 1 as [ | x l Hx Hnd IH]; intros Hn; simpl.
  - constructor; [exact Hn | constructor].
  - constructor.
    + rewrite in_app_iff. simpl. intros [H | [H | []]]; [contradiction | ].
      apply Hn. left. symmetry. exact H.
    + apply IH. intros H. apply Hn. right. exact H.
Qed.

Lemma toggle_NoDup (s : string) (prev : list string) :
  List.NoDup prev -> List.NoDup (toggleSymptom s prev).
Proof.
  intros Hnd. unfold toggleSymptom. destruct (includes s prev) eqn:E.
  - apply List.NoDup_filter. exact Hnd.
  - apply NoDup_snoc; [exact Hnd | ]. rewrite <- includes_In, E. discriminate.
Qed.

Lemma clicks_from (clicks : list string) :
  forall selected, List.NoDup selected ->
    List.NoDup (fold_left (fun sel symptom => toggleSymptom symptom sel) clicks selected)
    /\ forall x,
         In x (fold_left (fun sel symptom => toggleSymptom symptom sel) clicks selected)
         <-> xorb (includes x selected) (Nat.odd (count_occ string_dec clicks x)) = true.
Proof.
  induction clicks as [ | s clicks IH]; intros selected Hnd.
  - simpl. split; [exact Hnd | ]. intros x. rewrite xorb_false_r. symmetry. apply includes_In.
  - simpl fold_left. destruct (IH _ (toggle_NoDup s _ Hnd)) as [H1 H2].
    split; [exact H1 | ]. intros x. rewrite H2. clear H1 H2 IH.
    assert (Ht : includes x (toggleSymptom s selected)
                 = xorb (includes x selected) (if string_dec s x then true else false)).
    { apply eq_true_iff_eq. rewrite includes_In, toggle_In.
      destruct (string_dec s x) as [-> | Hne].
      - rewrite xorb_true_r, negb_true_iff.
        destruct (includes x selected) eqn:E.
        + apply includes_In in E. split; [ | discriminate].
          intros [[_ Hn] | [Hne _]]; contradiction.
        + split; [reflexivity | ]. intros _. left. split; [reflexivity | ].
          rewrite <- includes_In, E. discriminate.
      - rewrite xorb_false_r, includes_In. split.
        + intros [[-> _] | [_ Hin]]; [contradiction | exact Hin].
        + intros Hin. right. split; [congruence | exact Hin]. }
    rewrite Ht. simpl count_occ.
    destruct (string_dec s x); [rewrite Nat.odd_succ, <- Nat.negb_odd | ];
      destruct (includes x selected), (Nat.odd (count_occ string_dec clicks x));
      simpl; tauto.
Qed.

(** X3.  Whatever series of symptoms is clicked, starting from the empty
    selection, the selection never holds a symptom twice, and a symptom is
    selected exactly when it was clicked an odd number of times. *)
Theorem selection_has_no_duplicates (clicks : list string) :
  List.NoDup (afterClicks clicks)
  /\ forall x, In x (afterClicks clicks)
               <-> Nat.odd (count_occ string_dec clicks x) = true.
Proof.
  destruct (clicks_from clicks [] (List.NoDup_nil _)) as [H1 H2].
  split; [exact H1 | ]. intros x. rewrite (H2 x). reflexivity.
Qed.

End Selection.

(** * The booking service *)

Section Doctors.
Import JS Booking.

Lemma In_firstn {A} (n : nat) (l : list A) (x : A) :
  In x (firstn n l) -> In x l.
Proof.
  revert l. induction n as [ | n IH]; intros [ | y l]; simpl; try tauto.
  intros [H | H]; [left; exact H | right; exact (IH _ H)].
Qed.

(** X4.  [getDoctorsBySpecialty] never resolves with an empty list and
    only with doctors of the directory: when some doctor matches the query
    (either text containing the other, letter case ignored) it gives the
    matching doctors and only those; when none does it gives the first
    three doctors, none of whom matches. *)
Theorem doctors_never_empty (query : string) :
  getDoctorsBySpecialty query <> []
  /\ (forall d, In d (getDoctorsBySpecialty query) -> In d MOCK_DOCTORS)
  /\ (forall d, In d MOCK_DOCTORS -> matches query d = true ->
        In d (getDoctorsBySpecialty query)
        /\ forall d', In d' (getDoctorsBySpecialty query) -> matches query d' = true)
  /\ ((forall d, In d MOCK_DOCTORS -> matches query d = false) ->
        getDoctorsBySpecialty query = firstn 3 MOCK_DOCTORS).
Proof.
  unfold getDoctorsBySpecialty.
  destruct (List.filter (matches query) MOCK_DOCTORS) as [ | d0 ds] eqn:E.
  - split; [discriminate | ]. split; [ | split].
    + intros d Hin. exact (In_firstn 3 _ _ Hin).
    + intros d Hin Hm. exfalso.
      assert (H : In d (List.filter (matches query) MOCK_DOCTORS))
        by (apply List.filter_In; auto).
      rewrite E in H. destruct H.
    + reflexivity.
  - split; [discriminate | ]. split; [ | split].
    + intros d Hin. rewrite <- E in Hin. apply List.filter_In in Hin. tauto.
    + intros d Hin Hm. split.
      * rewrite <- E. apply List.filter_In. auto.
      * intros d' Hin'. rewrite <- E in Hin'. apply List.filter_In in Hin'. tauto.
    + intros Hnone. exfalso.
      assert (H : In d0 (List.filter (matches query) MOCK_DOCTORS))
        by (rewrite E; left; reflexivity).
      apply List.filter_In in H. destruct H as [H1 H2]. rewrite (Hnone _ H1) in H2.
      discriminate.
Qed.

Lemma find_none_unknown (doctorId : string) :
  (forall d, In d MOCK_DOCTORS -> id d <> doctorId) ->
  List.find (fun d => String.eqb (id d) doctorId) MOCK_DOCTORS = None.
Proof.
  intros H. destruct (List.find _ MOCK_DOCTORS) as [d | ] eqn:E; [ | reflexivity].
  apply find_some in E. destruct E as [Hin He]. apply String.eqb_eq in He.
  exfalso. exact (H _ Hin He).
Qed.

(** X5.  [bookAppointment] does not check that the doctor exists: when the
    random draw is not below 0.1, an appointment with a doctor id that is
    not in the directory is reported as booked, and the message names the
    doctor as the text of [undefined]. *)
Theorem unknown_doctor_is_booked (random : number) (a : Appointment) :
  lt random (literal 1) = false ->
  (forall d, In d MOCK_DOCTORS -> id d <> doctorId a) ->
  bookAppointment random a
  = Booked true
      ("Appointment successfully booked with undefined for " +:+ date a
       +:+ " at " +:+ time a +:+ ".").
Proof.
  intros Hr Hd. unfold bookAppointment, doctorName.
  rewrite Hr, (find_none_unknown _ Hd). reflexivity.
Qed.

Lemma unknown_doctor_is_booked_witness :
  bookAppointment (literal 5)
    {| doctorId := "17"; date := "2026-03-02"; time := "09:00 AM";
       patientName := "Asha"; appointmentSpecialty := "Cardiologist" |}
  = Booked true
      "Appointment successfully booked with undefined for 2026-03-02 at 09:00 AM.".
Proof.
  apply (unknown_doctor_is_booked (literal 5)
           {| doctorId := "17"; date := "2026-03-02"; time := "09:00 AM";
              patientName := "Asha"; appointmentSpecialty := "Cardiologist" |}).
  - reflexivity.
  - intros d Hin. simpl in Hin.
    destruct Hin as [<- | [<- | [<- | [<- | [<- | []]]]]]; discriminate.
Defined.

End Doctors.

(** * The authentication middleware *)

Section Gate.
Import JS Auth Terms.
#[local] Arguments String.append !_ _ / : simpl nomatch.

Variable verifyIdToken : string -> option DecodedToken.

Lemma includes_cons (part : string) (c : ascii) (s : string) :
  Booking.includes part (String c s) = false ->
  startsWith part (String c s) = false /\ Booking.includes part s = false.
Proof. simpl. intros H. apply orb_false_iff in H. exact H. Qed.

Lemma split_without_separator (sep s : string) :
  Booking.includes sep s = false -> splitOn sep s = [s].
Proof.
  unfold splitOn. induction s as [ | c s IH]; intros H; [reflexivity | ].
  apply includes_cons in H. destruct H as [H1 H2].
  simpl splitFrom. rewrite H1, (IH H2). reflexivity.
Qed.

Lemma splitFrom_skip (sep pre s : string) :
  splitFrom sep (String.length pre) (pre +:+ s) = splitFrom sep 0 s.
Proof.
  induction pre as [ | c pre IH]; [reflexivity | ]. simpl. exact IH.
Qed.

Lemma idToken_of_bearer (token : string) :
  Booking.includes "Bearer " token = false ->
  idTokenOf (Some ("Bearer " +:+ token)) = token.
Proof.
  intros H. unfold idTokenOf, splitOn.
  change ("Bearer " +:+ token) with (String "B" ("earer " +:+ token)).
  cbn [splitFrom].
  replace (startsWith "Bearer " (String "B" ("earer " +:+ token))) with true.
  2:{ clear H. simpl. destruct token; reflexivity. }
  change (String.length "Bearer " - 1)%nat with (String.length "earer ").
  rewrite splitFrom_skip.
  change (splitFrom "Bearer " 0 token) with (splitOn "Bearer " token).
  rewrite (split_without_separator _ _ H). reflexivity.
Qed.

(** X6.  For a header made of [Bearer], a space, and a token in which that
    text does not occur again, [authenticateUser] hands exactly the token to
    the verifier: the request passes with the decoded token as its user when
    the token verifies, and is refused with 401 when it does not. *)
Theorem bearer_token_reaches_verifier (token : string) :
  Booking.includes "Bearer " token = false ->
  authenticateUser verifyIdToken (Some ("Bearer " +:+ token))
  = match verifyIdToken token with
    | Some decoded => Next (Some decoded)
    | None => Refused 401 "Unauthorized: Invalid token"
    end.
Proof.
  intros H. unfold authenticateUser.
  rewrite (idToken_of_bearer _ H). reflexivity.
Qed.

Lemma listed_In (e : option string) (l : list string) :
  listed e l = true <-> exists x, e = Some x /\ In x l.
Proof.
  destruct e as [x | ]; simpl.
  - rewrite existsb_exists. split.
    + intros (y & Hin & He). apply String.eqb_eq in He. subst. eauto.
    + intros (y & E & Hin). injection E as <-. exists x.
      split; [exact Hin | apply String.eqb_refl].
  - split; [discriminate | intros (x & E & _); discriminate].
Qed.

(** X7.  The gate of the admin routes ([authenticateUser], then [isAdmin])
    lets a request through exactly when its header starts with the bearer
    prefix, its token verifies, and the e-mail of the decoded token is one
    of the comma-separated admin addresses as written (no trimming, no case
    folding); the user it passes on is the decoded token.  Every refusal is
    a 401 (no bearer header, or a token that does not verify) or a 403 (a
    verified token whose e-mail is missing or not listed). *)
Theorem admin_gate (ADMIN_EMAILS authHeader : option string) :
  (forall user,
     adminGate verifyIdToken ADMIN_EMAILS authHeader = Next user
     <-> exists decoded e,
           user = Some decoded
           /\ isBearer authHeader = true
           /\ verifyIdToken (idTokenOf authHeader) = Some decoded
           /\ email decoded = Some e
           /\ In e (adminList ADMIN_EMAILS))
  /\ (forall status error,
        adminGate verifyIdToken ADMIN_EMAILS authHeader = Refused status error ->
        (status = 401 /\ (isBearer authHeader = false
                          \/ verifyIdToken (idTokenOf authHeader) = None))
        \/ (status = 403 /\ exists decoded,
              verifyIdToken (idTokenOf authHeader) = Some decoded
              /\ listed (email decoded) (adminList ADMIN_EMAILS) = false)).
Proof.
  unfold adminGate, authenticateUser, isAdmin. fold (adminList ADMIN_EMAILS).
  destruct (isBearer authHeader) eqn:Hb; simpl negb; cbv iota.
  2:{ split.
      - intros user. split; [discriminate | ].
        intros (d & e & _ & H & _). discriminate H.
      - intros status error H. injection H as <- _. left. auto. }
  destruct (verifyIdToken (idTokenOf authHeader)) as [d | ] eqn:Hv.
  2:{ split.
      - intros user. split; [discriminate | ].
        intros (d & e & _ & _ & H & _). discriminate H.
      - intros status error H. injection H as <- _. left. auto. }
  destruct (listed (email d) (adminList ADMIN_EMAILS)) eqn:Hl.
  - split.
    + intros user. split.
      * intros H. injection H as <-. apply listed_In in Hl.
        destruct Hl as (e & He & Hin). exists d, e. auto.
      * intros (d' & e & -> & _ & H & _). injection H as <-. reflexivity.
    + intros status error H. discriminate H.
  - split.
    + intros user. split; [discriminate | ].
      intros (d' & e & _ & _ & H & He & Hin). injection H as <-.
      assert (listed (email d) (adminList ADMIN_EMAILS) = true)
        by (apply listed_In; eauto).
      congruence.
    + intros status error H. injection H as <- _. right. split; [reflexivity | ].
      exists d. auto.
Qed.

(** X8.  [optionalAuthenticate] never refuses a request, and it sets the
    user exactly when [authenticateUser] would let the request pass, to the
    same decoded token; otherwise the request goes on without a user. *)
Theorem optional_authentication (authHeader : option string) :
  (exists user, optionalAuthenticate verifyIdToken authHeader = Next user)
  /\ (forall decoded,
        optionalAuthenticate verifyIdToken authHeader = Next (Some decoded)
        <-> authenticateUser verifyIdToken authHeader = Next (Some decoded))
  /\ (optionalAuthenticate verifyIdToken authHeader = Next None
      <-> exists status error,
            authenticateUser verifyIdToken authHeader = Refused status error).
Proof.
  unfold optionalAuthenticate, authenticateUser.
  destruct (isBearer authHeader); simpl negb; cbv iota.
  - destruct (verifyIdToken (idTokenOf authHeader)) as [d | ].
    + split; [eauto | ]. split; [tauto | ].
      split; [discriminate | intros (s & e & H); discriminate H].
    + split; [eauto | ]. split; [intros d; split; discriminate | ].
      split; [eauto | reflexivity].
  - split; [eauto | ]. split; [intros d; split; discriminate | ].
    split; [eauto | reflexivity].
Qed.

End Gate.

Lemma bearer_token_reaches_verifier_witness :
  Auth.authenticateUser
    (Terms.oneToken "abc" {| Auth.uid := "u1"; Auth.email := None |})
    (Some "Bearer abc")
  = Auth.Next (Some {| Auth.uid := "u1"; Auth.email := None |}).
Proof.
  exact (bearer_token_reaches_verifier
           (Terms.oneToken "abc" {| Auth.uid := "u1"; Auth.email := None |})
           "abc" eq_refl).
Defined.

(** * Further properties of the orchestrator *)

Section Handler.
Import JS Crypto MedicalLogic Server Props Terms.

(** X9.  The order in which the symptoms arrive changes nothing: for two
    requests that differ only by a permutation of the symptom array, the
    route gives the same response, leaves the same state and performs the
    same effects (the array is sorted in place before anything reads it). *)
Theorem symptom_order_is_irrelevant (w : World) (env : Env) (req : Request)
    (l1 l2 : list string) :
  Permutation l1 l2 ->
  diagnose w env (withSymptoms req l1) = diagnose w env (withSymptoms req l2).
Proof.
  intros Hp. unfold diagnose.
  cbn [symptoms vitals vitalsJson demographics demographicsJson additionalInfo user
       withSymptoms].
  destruct l1 as [ | a l1], l2 as [ | b l2].
  - reflexivity.
  - apply Permutation_nil in Hp. discriminate Hp.
  - apply Permutation_sym, Permutation_nil in Hp. discriminate Hp.
  - assert (Hk : getCacheKey (a :: l1) (vitalsJson req) (demographicsJson req)
                 = getCacheKey (b :: l2) (vitalsJson req) (demographicsJson req)).
    { unfold getCacheKey, cacheKeyData. rewrite (sort_permutation _ _ Hp). reflexivity. }
    rewrite Hk. reflexivity.
Qed.

Lemma symptom_order_is_irrelevant_witness :
  diagnose emptyWorld {| now := 0; provider := Resolves 10 (Some conclusiveText) |}
    (plainRequest ["Fever"; "Cough"])
  = diagnose emptyWorld {| now := 0; provider := Resolves 10 (Some conclusiveText) |}
      (plainRequest ["Cough"; "Fever"]).
Proof.
  exact (symptom_order_is_irrelevant emptyWorld
           {| now := 0; provider := Resolves 10 (Some conclusiveText) |}
           (plainRequest []) ["Fever"; "Cough"] ["Cough"; "Fever"]
           (perm_swap "Cough" "Fever" [])).
Defined.

Lemma auditInserts_app (a b : list Event) :
  auditInserts (a ++ b) = auditInserts a ++ auditInserts b.
Proof.
  induction a as [ | x a IH]; [reflexivity | ].
  destruct x; simpl; rewrite IH; reflexivity.
Qed.

Lemma auditInserts_timer (elapsed : Z) : auditInserts (timerEvents elapsed) = [].
Proof. unfold timerEvents. destruct (timeoutMs <=? elapsed); reflexivity. Qed.

Lemma lookups_app (a b : list Event) :
  lookups (a ++ b) = (lookups a + lookups b)%nat.
Proof.
  induction a as [ | x a IH]; [reflexivity | ].
  destruct x; simpl; rewrite IH; reflexivity.
Qed.

Lemma lookups_timer (elapsed : Z) : lookups (timerEvents elapsed) = 0%nat.
Proof. unfold timerEvents. destruct (timeoutMs <=? elapsed); reflexivity. Qed.

(** What the [try] block leaves behind, whichever way it ends. *)
Lemma afterProvider_effects (w : World) (finished : Z) (uid model key : string)
    (sorted : list string) (req : Request) (text : option string) :
  let o := afterProvider w finished uid model key sorted req text in
  let row :=
    {| user_uid := uid; model_used := model;
       input_hash := sha256hex (inputData sorted (additionalInfo req)
                                  (vitalsJson req) (demographicsJson req));
       response_hash := sha256hex (orElse text EmptyString) |} in
  cacheHits (world o) = cacheHits w
  /\ cacheMisses (world o) = cacheMisses w
  /\ lookups (trace o) = 0%nat
  /\ audit_logs (world o) = audit_logs w ++ auditInserts (trace o)
  /\ (forall k, k <> key -> diagnosisCache (world o) !! k = diagnosisCache w !! k)
  /\ match Json.parse (orElse text "{}") with
     | None => auditInserts (trace o) = [] /\ response o = Some serverError
               /\ diagnosisCache (world o) = diagnosisCache w
     | Some d =>
         auditInserts (trace o) = [row]
         /\ (response o = Some serverError \/ response o = Some inconclusiveSymptoms
             \/ response o = Some (success d))
     end.
Proof.
  unfold afterProvider. destruct (Json.parse (orElse text "{}")) as [d | ].
  2:{ cbn. rewrite app_nil_r. repeat split; reflexivity. }
  cbv zeta.
  destruct (Json.getProperty d "inconclusive") as [ | | flag]; simpl Json.isTruthy;
    [ | destruct (truthy (additionalInfo req))
      | destruct (Json.truthy flag); [ | destruct (truthy (additionalInfo req))]];
    cbn [response world trace audit_logs diagnosisCache cacheHits cacheMisses
         auditInserts lookups];
    (split; [reflexivity | ]); (split; [reflexivity | ]); (split; [reflexivity | ]);
    (split; [reflexivity | ]);
    (split; [intros k Hk; try reflexivity;
             unfold cacheSet; apply lookup_insert_ne; congruence | ]);
    (split; [reflexivity | ]); auto.
Qed.

Lemma invokeModel_effects (w : World) (env : Env) (uid key : string)
    (sorted : list string) (req : Request) :
  let o := invokeModel w env uid key sorted req in
  cacheHits (world o) = cacheHits w
  /\ cacheMisses (world o) = cacheMisses w
  /\ lookups (trace o) = 0%nat
  /\ audit_logs (world o) = audit_logs w ++ auditInserts (trace o)
  /\ (forall k, k <> key -> diagnosisCache (world o) !! k = diagnosisCache w !! k)
  /\ (auditInserts (trace o) = []
      \/ exists elapsed text d,
           provider env = Resolves elapsed text
           /\ Json.parse (orElse text "{}") = Some d
           /\ providerCalls (trace o) = 1%nat
           /\ auditInserts (trace o)
              = [{| user_uid := uid;
                    model_used := selectModel sorted (additionalInfo req) (demographics req);
                    input_hash := sha256hex (inputData sorted (additionalInfo req)
                                               (vitalsJson req) (demographicsJson req));
                    response_hash := sha256hex (orElse text EmptyString) |}]).
Proof.
  unfold invokeModel.
  destruct (wearableString (wearableData req)) as [wearable | ].
  2:{ cbn. rewrite app_nil_r. repeat split; auto. }
  destruct (provider env) as [elapsed text | elapsed name | ].
  - pose proof (afterProvider_effects w (now env + elapsed) uid
                  (selectModel sorted (additionalInfo req) (demographics req))
                  key sorted req text) as H.
    cbv zeta in H. destruct H as (H1 & H2 & H3 & H4 & H5 & H6).
    cbv zeta. unfold prepend. cbn [world trace].
    rewrite !auditInserts_app, !lookups_app, !providerCalls_app.
    cbn [auditInserts lookups providerCalls].
    rewrite auditInserts_timer, lookups_timer, providerCalls_timer, afterProvider_calls.
    cbn [app Nat.add].
    repeat (split; [assumption | ]).
    destruct (Json.parse (orElse text "{}")) as [d | ] eqn:Hd.
    + right. exists elapsed, text, d. destruct H6 as [H6 _]. auto.
    + left. tauto.
  - cbn. rewrite app_nil_r. repeat split; auto.
  - cbn. rewrite app_nil_r. repeat split; auto.
Qed.

(** X10.  The audit log only grows, and by the rows the trace inserts: a
    request adds no row or exactly one.  It adds one only when the model was
    called once and resolved with a text that parses, and the row is then
    the one built from the request and that text; a rejected request, a
    cache hit, a failed call and an unparseable answer add none. *)
Theorem audit_log_only_grows (w : World) (env : Env) (req : Request) :
  let o := diagnose w env req in
  audit_logs (world o) = audit_logs w ++ auditInserts (trace o)
  /\ (auditInserts (trace o) = []
      \/ exists l elapsed text d,
           symptoms req = SymptomList l
           /\ provider env = Resolves elapsed text
           /\ Json.parse (orElse text "{}") = Some d
           /\ providerCalls (trace o) = 1%nat
           /\ auditInserts (trace o) = [auditRowOf req l text]).
Proof.
  cbv zeta.
  destruct (diagnose_cases w env req)
    as [Hv | [[Hv Hs] | (first & others & Hv & Hs & [(v & Hl & Ht) | Hm])]].
  - rewrite (diagnose_invalid _ _ _ Hv). cbn. rewrite app_nil_r. auto.
  - rewrite (diagnose_no_symptom _ _ _ Hv Hs). cbn. rewrite app_nil_r. auto.
  - rewrite (diagnose_hit _ _ _ _ _ _ Hv Hs Hl Ht). cbn. rewrite app_nil_r. auto.
  - rewrite (diagnose_miss _ _ _ _ _ Hv Hs Hm).
    pose proof (invokeModel_effects
                  (afterMiss w (snd (lookupFor w env req (first :: others))))
                  env (uidOf req) (cacheKeyOf req (first :: others))
                  (sort (first :: others)) req) as H.
    cbv zeta in H. destruct H as (_ & _ & _ & H4 & _ & H6).
    unfold prepend. cbn [world trace app auditInserts providerCalls].
    split; [exact H4 | ].
    destruct H6 as [H6 | (elapsed & text & d & Hp & Hd & Hc & Hr)]; [left; exact H6 | ].
    rewrite auditRow_payload in Hr.
    right. exists (first :: others), elapsed, text, d. auto.
Qed.

(** X11.  Every cache lookup is counted once, as a hit or as a miss: the
    two counters together grow by the number of lookups of the request (one
    or none), neither ever decreases, and the hit counter grows only when the
    response is a 200 taken from the cache without any call of the model. *)
Theorem every_lookup_is_counted (w : World) (env : Env) (req : Request) :
  let o := diagnose w env req in
  cacheHits (world o) + cacheMisses (world o)
  = cacheHits w + cacheMisses w + Z.of_nat (lookups (trace o))
  /\ (lookups (trace o) <= 1)%nat
  /\ cacheMisses w <= cacheMisses (world o)
  /\ (cacheHits (world o) = cacheHits w
      \/ (cacheHits (world o) = cacheHits w + 1
          /\ providerCalls (trace o) = 0%nat
          /\ exists v, response o = Some (success v))).
Proof.
  cbv zeta.
  destruct (diagnose_cases w env req)
    as [Hv | [[Hv Hs] | (first & others & Hv & Hs & [(v & Hl & Ht) | Hm])]].
  - rewrite (diagnose_invalid _ _ _ Hv). cbn. split; [lia | ]. split; [lia | ]. split; [lia | ]. left. reflexivity.
  - rewrite (diagnose_no_symptom _ _ _ Hv Hs). cbn. split; [lia | ]. split; [lia | ]. split; [lia | ]. left. reflexivity.
  - rewrite (diagnose_hit _ _ _ _ _ _ Hv Hs Hl Ht). cbn.
    split; [lia | ]. split; [lia | ]. split; [lia | ]. right. eauto.
  - rewrite (diagnose_miss _ _ _ _ _ Hv Hs Hm).
    pose proof (invokeModel_effects
                  (afterMiss w (snd (lookupFor w env req (first :: others))))
                  env (uidOf req) (cacheKeyOf req (first :: others))
                  (sort (first :: others)) req) as H.
    cbv zeta in H. destruct H as (H1 & H2 & H3 & _).
    unfold prepend. cbn [world trace app lookups].
    rewrite H1, H2, H3. cbn [afterMiss cacheHits cacheMisses].
    split; [lia | ]. split; [lia | ]. split; [lia | ]. left. reflexivity.
Qed.

(** X12.  A request touches no cache entry but its own: under every key
    other than the key of the request, the cache holds after the request
    what it held before. *)
Theorem only_own_cache_entry_changes (w : World) (env : Env) (req : Request)
    (l : list string) (k : string) :
  symptoms req = SymptomList l ->
  k <> cacheKeyOf req l ->
  diagnosisCache (world (diagnose w env req)) !! k = diagnosisCache w !! k.
Proof.
  intros Hl Hk.
  assert (Hget : snd (lookupFor w env req l) !! k = diagnosisCache w !! k).
  { unfold lookupFor, cacheGet.
    destruct (diagnosisCache w !! cacheKeyOf req l) as [e | ]; [ | reflexivity].
    destruct (expires e <? now env); [ | reflexivity].
    simpl. apply lookup_delete_ne. congruence. }
  destruct (diagnose_cases w env req)
    as [Hv | [[Hv Hs] | (first & others & Hv & Hs & [(v & Hf & Ht) | Hm])]].
  - rewrite (diagnose_invalid _ _ _ Hv). reflexivity.
  - rewrite (diagnose_no_symptom _ _ _ Hv Hs). reflexivity.
  - rewrite Hl in Hs. injection Hs as ->.
    rewrite (diagnose_hit _ _ _ _ _ _ Hv Hl Hf Ht). exact Hget.
  - rewrite Hl in Hs. injection Hs as ->.
    rewrite (diagnose_miss _ _ _ _ _ Hv Hl Hm).
    pose proof (invokeModel_effects
                  (afterMiss w (snd (lookupFor w env req (first :: others))))
                  env (uidOf req) (cacheKeyOf req (first :: others))
                  (sort (first :: others)) req) as H.
    cbv zeta in H. destruct H as (_ & _ & _ & _ & H5 & _).
    unfold prepend. cbn [world]. rewrite (H5 _ Hk). exact Hget.
Qed.

Lemma only_own_cache_entry_changes_witness :
  diagnosisCache
    (world (diagnose emptyWorld
              {| now := 0; provider := Resolves 10 (Some conclusiveText) |}
              (plainRequest ["Fever"])))
  !! "another key"
  = diagnosisCache emptyWorld !! "another key".
Proof.
  apply (only_own_cache_entry_changes emptyWorld
           {| now := 0; provider := Resolves 10 (Some conclusiveText) |}
           (plainRequest ["Fever"]) ["Fever"] "another key").
  - reflexivity.
  - apply String.eqb_neq. vm_compute. reflexivity.
Defined.

Lemma invalid_verdict (v : option Vitals) :
  valid (validateVitals v) = false ->
  validateVitals v = temperatureError \/ validateVitals v = bloodPressureError.
Proof.
  destruct v as [v | ]; [ | discriminate].
  rewrite validateVitals_unfold.
  destruct (_ && _ && _); [auto | ].
  unfold checkBloodPressure.
  destruct (truthy (bloodPressure v)); [ | discriminate].
  destruct (split "/" (orEmpty (bloodPressure v))) as [ | p0 [ | p1 [ | p2 ps]]];
    try discriminate.
  cbv zeta. destruct (_ || _ || _); [auto | discriminate].
Qed.

Lemma isErrorOf_catchError (name : string) :
  isErrorOf 504 "API_TIMEOUT" (catchError name)
  \/ isErrorOf 500 "SERVER_ERROR" (catchError name).
Proof.
  unfold catchError. destruct (String.eqb name "AbortError");
    [left | right]; (split; [reflexivity | eexists; eexists; reflexivity]).
Qed.

Lemma invokeModel_response (w : World) (env : Env) (uid key : string)
    (sorted : list string) (req : Request) (r : Response) :
  response (invokeModel w env uid key sorted req) = Some r ->
  (exists d, r = success d) \/ r = inconclusiveSymptoms
  \/ exists name, r = catchError name.
Proof.
  unfold invokeModel.
  destruct (wearableString (wearableData req)) as [wearable | ].
  2:{ intros H. injection H as <-. right. right. eexists. reflexivity. }
  destruct (provider env) as [elapsed text | elapsed name | ].
  - unfold prepend. cbn [response]. unfold afterProvider.
    destruct (Json.parse (orElse text "{}")) as [d | ].
    2:{ intros H. injection H as <-. right. right. eexists. reflexivity. }
    cbv zeta.
    destruct (Json.getProperty d "inconclusive") as [ | | flag]; simpl Json.isTruthy;
      [ | destruct (truthy (additionalInfo req))
        | destruct (Json.truthy flag); [ | destruct (truthy (additionalInfo req))]];
      cbn [response]; intros H; injection H as <-; eauto.
  - intros H. injection H as <-. right. right. eexists. reflexivity.
  - discriminate.
Qed.

(** X13.  Every response that the callback of the route sends, that is,
    once the rate limiter, the body parser, [optionalAuthenticate] and the
    CSRF check have let the request through, is either a 200 with a JSON
    payload or one of five errors, each with its code, an error text and a
    suggestion: 400 INCONCLUSIVE_SYMPTOMS, 422 CONFLICTING_VITALS, 422
    INCONCLUSIVE_SYMPTOMS, 504 API_TIMEOUT, 500 SERVER_ERROR.  What the
    middleware in front of the callback answers is not covered. *)
Theorem error_contract (w : World) (env : Env) (req : Request) (r : Response) :
  response (diagnose w env req) = Some r ->
  (status r = 200 /\ exists d, body r = JsonBody d)
  \/ isErrorOf 400 "INCONCLUSIVE_SYMPTOMS" r
  \/ isErrorOf 422 "CONFLICTING_VITALS" r
  \/ isErrorOf 422 "INCONCLUSIVE_SYMPTOMS" r
  \/ isErrorOf 504 "API_TIMEOUT" r
  \/ isErrorOf 500 "SERVER_ERROR" r.
Proof.
  destruct (diagnose_cases w env req)
    as [Hv | [[Hv Hs] | (first & others & Hv & Hs & [(v & Hl & Ht) | Hm])]].
  - rewrite (diagnose_invalid _ _ _ Hv). cbn [response]. intros H. injection H as <-.
    right. right. left. split; [reflexivity | ].
    destruct (invalid_verdict _ Hv) as [-> | ->]; eexists; eexists; reflexivity.
  - rewrite (diagnose_no_symptom _ _ _ Hv Hs). cbn [response]. intros H. injection H as <-.
    right. left. split; [reflexivity | eexists; eexists; reflexivity].
  - rewrite (diagnose_hit _ _ _ _ _ _ Hv Hs Hl Ht). cbn [response].
    intros H. injection H as <-. left. split; [reflexivity | eexists; reflexivity].
  - rewrite (diagnose_miss _ _ _ _ _ Hv Hs Hm). unfold prepend. cbn [response].
    intros H. apply invokeModel_response in H.
    destruct H as [[d ->] | [-> | [name ->]]].
    + left. split; [reflexivity | eexists; reflexivity].
    + right. right. right. left. split; [reflexivity | eexists; eexists; reflexivity].
    + right. right. right. right. apply isErrorOf_catchError.
Qed.

Lemma error_contract_witness :
  (status noSymptoms = 200 /\ exists d, body noSymptoms = JsonBody d)
  \/ isErrorOf 400 "INCONCLUSIVE_SYMPTOMS" noSymptoms
  \/ isErrorOf 422 "CONFLICTING_VITALS" noSymptoms
  \/ isErrorOf 422 "INCONCLUSIVE_SYMPTOMS" noSymptoms
  \/ isErrorOf 504 "API_TIMEOUT" noSymptoms
  \/ isErrorOf 500 "SERVER_ERROR" noSymptoms.
Proof.
  exact (error_contract emptyWorld {| now := 0; provider := Pending |}
           (plainRequest []) noSymptoms eq_refl).
Defined.

(** X14.  When the call of the model rejects, the route answers 504
    API_TIMEOUT if the error is named AbortError and 500 SERVER_ERROR
    otherwise; the request is counted as a miss, the model was called once,
    nothing is written to the audit log, and the cache gains no entry. *)
Theorem failed_call_leaves_no_record (w : World) (env : Env) (req : Request)
    (elapsed : Z) (name : string) :
  reachesProvider (diagnose w env req) ->
  provider env = Rejects elapsed name ->
  let o := diagnose w env req in
  response o = Some (if String.eqb name "AbortError" then apiTimeout else serverError)
  /\ audit_logs (world o) = audit_logs w
  /\ cacheHits (world o) = cacheHits w
  /\ cacheMisses (world o) = cacheMisses w + 1
  /\ providerCalls (trace o) = 1%nat
  /\ (forall k e, diagnosisCache (world o) !! k = Some e -> diagnosisCache w !! k = Some e)
  /\ forall k, ~ In (CacheSet k) (trace o).
Proof.
  intros Hr Hp. cbv zeta.
  destruct (reaches_inv _ _ _ Hr) as (first & others & wearable & Hv & Hs & Hm & Hw).
  rewrite (diagnose_miss _ _ _ _ _ Hv Hs Hm).
  unfold invokeModel. rewrite Hw, Hp. unfold prepend.
  cbn [response world trace afterMiss audit_logs cacheHits cacheMisses diagnosisCache
       app providerCalls].
  repeat (split; [reflexivity | ]). split.
  - intros k e. unfold lookupFor. apply cacheGet_shrinks.
  - intros k [H | [H | [H | []]]]; discriminate H.
Qed.

Lemma failed_call_leaves_no_record_witness :
  response (diagnose emptyWorld {| now := 0; provider := Rejects 10 "AbortError" |}
              (plainRequest ["Fever"]))
  = Some apiTimeout.
Proof.
  apply (failed_call_leaves_no_record emptyWorld
           {| now := 0; provider := Rejects 10 "AbortError" |}
           (plainRequest ["Fever"]) 10 "AbortError").
  - eexists. eexists. vm_compute. right. left. reflexivity.
  - reflexivity.
Defined.

(** X15.  When the model resolves with a text that is not JSON, the route
    answers 500 SERVER_ERROR, and neither an audit row nor a cache entry is
    written: parsing comes before the audit insert. *)
Theorem unparseable_answer_not_audited (w : World) (env : Env) (req : Request)
    (elapsed : Z) (text : option string) :
  reachesProvider (diagnose w env req) ->
  provider env = Resolves elapsed text ->
  Json.parse (orElse text "{}") = None ->
  let o := diagnose w env req in
  response o = Some serverError
  /\ audit_logs (world o) = audit_logs w
  /\ auditInserts (trace o) = []
  /\ forall k, ~ In (CacheSet k) (trace o).
Proof.
  intros Hr Hp Hn. cbv zeta.
  destruct (reaches_inv _ _ _ Hr) as (first & others & wearable & Hv & Hs & Hm & Hw).
  rewrite (diagnose_resolved_of _ _ _ _ _ _ _ _ Hv Hs Hm Hw Hp). cbv zeta.
  unfold afterProvider. rewrite Hn. unfold prepend.
  cbn [response world trace afterMiss audit_logs app auditInserts].
  rewrite app_nil_r, auditInserts_timer.
  repeat (split; [reflexivity | ]).
  intros k [H | [H | H]]; try discriminate H. exact (no_CacheSet_timer _ _ H).
Qed.

Lemma unparseable_answer_not_audited_witness :
  response (diagnose emptyWorld {| now := 0; provider := Resolves 10 (Some "{") |}
              (plainRequest ["Fever"]))
  = Some serverError.
Proof.
  apply (unparseable_answer_not_audited emptyWorld
           {| now := 0; provider := Resolves 10 (Some "{") |}
           (plainRequest ["Fever"]) 10 (Some "{")).
  - eexists. eexists. vm_compute. right. left. reflexivity.
  - reflexivity.
  - vm_compute. reflexivity.
Defined.

(** X16.  When the model resolves with a text that parses to [null], the
    audit row is written first and the read of [inconclusive] then throws:
    the route answers 500 SERVER_ERROR, the audit log holds the row of the
    request, and no cache entry is written. *)
Theorem null_answer_audited_then_fails (w : World) (env : Env) (req : Request)
    (l : list string) (elapsed : Z) (text : option string) :
  reachesProvider (diagnose w env req) ->
  symptoms req = SymptomList l ->
  provider env = Resolves elapsed text ->
  Json.parse (orElse text "{}") = Some Json.JNull ->
  let o := diagnose w env req in
  response o = Some serverError
  /\ audit_logs (world o) = audit_logs w ++ [auditRowOf req l text]
  /\ forall k, ~ In (CacheSet k) (trace o).
Proof.
  intros Hr Hl Hp Hn. cbv zeta.
  destruct (reaches_inv _ _ _ Hr) as (first & others & wearable & Hv & Hs & Hm & Hw).
  rewrite Hl in Hs. injection Hs as ->.
  rewrite (diagnose_resolved_of _ _ _ _ _ _ _ _ Hv Hl Hm Hw Hp). cbv zeta.
  unfold afterProvider. rewrite Hn. unfold prepend.
  cbn [Json.getProperty response world trace afterMiss audit_logs app].
  split; [reflexivity | ].
  split; [rewrite auditRow_payload; reflexivity | ].
  intros k [H | [H | H]]; try discriminate H.
  apply in_app_or in H. destruct H as [H | [H | []]];
    [exact (no_CacheSet_timer _ _ H) | discriminate H].
Qed.

Lemma null_answer_audited_then_fails_witness :
  let o := diagnose emptyWorld {| now := 0; provider := Resolves 10 (Some "null") |}
             (plainRequest ["Fever"]) in
  response o = Some serverError
  /\ audit_logs (world o)
     = [auditRowOf (plainRequest ["Fever"]) ["Fever"] (Some "null")].
Proof.
  cbv zeta.
  destruct (null_answer_audited_then_fails emptyWorld
              {| now := 0; provider := Resolves 10 (Some "null") |}
              (plainRequest ["Fever"]) ["Fever"] 10 (Some "null")) as (H1 & H2 & _).
  - eexists. eexists. vm_compute. right. left. reflexivity.
  - reflexivity.
  - reflexivity.
  - vm_compute. reflexivity.
  - split; [exact H1 | exact H2].
Defined.

(** X17.  A request that misses the cache and carries wearable data whose
    [sleepHours] is not a number fails while the prompt is built: the route
    answers 500 SERVER_ERROR, its only effect is the cache lookup (the model
    is not called), nothing is audited, and the miss is counted. *)
Theorem wearable_without_sleep_hours (w : World) (env : Env) (req : Request)
    (first : string) (others : list string) (wd : WearableData) :
  valid (validateVitals (vitals req)) = true ->
  symptoms req = SymptomList (first :: others) ->
  servedFromCache w env req (first :: others) = false ->
  wearableData req = Some wd ->
  sleepHours wd = None ->
  let o := diagnose w env req in
  response o = Some serverError
  /\ trace o = [CacheGet (cacheKeyOf req (first :: others))]
  /\ audit_logs (world o) = audit_logs w
  /\ cacheMisses (world o) = cacheMisses w + 1.
Proof.
  intros Hv Hs Hm Hw Hh. cbv zeta.
  rewrite (diagnose_miss _ _ _ _ _ Hv Hs Hm).
  unfold invokeModel, wearableString. rewrite Hw, Hh. auto.
Qed.

Lemma wearable_without_sleep_hours_witness :
  response
    (diagnose emptyWorld {| now := 0; provider := Resolves 10 (Some conclusiveText) |}
       (withWearable ["Fever"]
          {| avgSteps := Some (ofZ 4000); avgHeartRate := Some (ofZ 70);
             sleepHours := None |}))
  = Some serverError.
Proof.
  apply (wearable_without_sleep_hours emptyWorld
           {| now := 0; provider := Resolves 10 (Some conclusiveText) |}
           (withWearable ["Fever"]
              {| avgSteps := Some (ofZ 4000); avgHeartRate := Some (ofZ 70);
                 sleepHours := None |})
           "Fever" []
           {| avgSteps := Some (ofZ 4000); avgHeartRate := Some (ofZ 70);
              sleepHours := None |});
    reflexivity.
Defined.

Lemma orElse_falsy (s : option string) (default : string) :
  truthy s = false -> orElse s default = default.
Proof. intros H. unfold orElse. rewrite H. reflexivity. Qed.

(** X18.  When the model resolves with no text or an empty text, the
    route parses the text of an empty object instead: it answers 200 with an
    empty object, audits the hash of the empty string as the hash of the
    answer, and, for a request without addendum, stores the empty object in
    the cache under the key of the request for the standard time to live. *)
Theorem empty_answer_is_success (w : World) (env : Env) (req : Request)
    (l : list string) (elapsed : Z) (text : option string) :
  reachesProvider (diagnose w env req) ->
  symptoms req = SymptomList l ->
  provider env = Resolves elapsed text ->
  truthy text = false ->
  let o := diagnose w env req in
  response o = Some (success (Json.JObject []))
  /\ (exists row, audit_logs (world o) = audit_logs w ++ [row]
                  /\ response_hash row = sha256hex EmptyString)
  /\ (truthy (additionalInfo req) = false ->
        diagnosisCache (world o) !! cacheKeyOf req l
        = Some {| cached := Json.JObject [];
                  expires := now env + elapsed + stdTTL * 1000 |}).
Proof.
  intros Hr Hl Hp Ht. cbv zeta.
  destruct (reaches_inv _ _ _ Hr) as (first & others & wearable & Hv & Hs & Hm & Hw).
  rewrite Hl in Hs. injection Hs as ->.
  rewrite (diagnose_resolved_of _ _ _ _ _ _ _ _ Hv Hl Hm Hw Hp). cbv zeta.
  unfold afterProvider. rewrite !(orElse_falsy _ _ Ht).
  change (Json.parse "{}") with (Some (Json.JObject [])). cbv zeta.
  cbn [Json.getProperty Json.lookupMember Json.isTruthy].
  destruct (truthy (additionalInfo req)); unfold prepend;
    cbn [response world trace afterMiss audit_logs diagnosisCache];
    (split; [reflexivity | ]); (split; [eexists; split; reflexivity | ]).
  - discriminate.
  - intros _. unfold cacheSet. apply lookup_insert_eq.
Qed.

Lemma empty_answer_is_success_witness :
  response (diagnose emptyWorld {| now := 0; provider := Resolves 10 None |}
              (plainRequest ["Fever"]))
  = Some (success (Json.JObject [])).
Proof.
  apply (empty_answer_is_success emptyWorld {| now := 0; provider := Resolves 10 None |}
           (plainRequest ["Fever"]) ["Fever"] 10 None).
  - eexists. eexists. vm_compute. right. left. reflexivity.
  - reflexivity.
  - reflexivity.
  - reflexivity.
Defined.

End Handler.

(** * The shape of the digests *)

Section Digest.
Import JS Crypto MedicalLogic Server Props Terms.
#[local] Arguments String.append !_ _ / : simpl nomatch.

Lemma round_length (st : list Z) (kw : Z * Z) :
  List.length (round st kw) = List.length st.
Proof.
  unfold round.
  destruct st as [ | a [ | b [ | c [ | d [ | e [ | f [ | g [ | h [ | i st]]]]]]]]];
    reflexivity.
Qed.

Lemma rounds_length (l : list (Z * Z)) (st : list Z) :
  List.length (fold_left round l st) = List.length st.
Proof.
  revert st. induction l as [ | kw l IH]; intros st; [reflexivity | ].
  simpl. rewrite IH. apply round_length.
Qed.

Lemma addWords_length (x y : list Z) :
  List.length x = List.length y -> List.length (addWords x y) = List.length x.
Proof.
  revert y. induction x as [ | a x IH]; intros [ | b y] H; simpl in *; try lia.
  rewrite IH; lia.
Qed.

Lemma compress_length (h block : list Z) :
  List.length (compress h block) = List.length h.
Proof.
  unfold compress. apply addWords_length. symmetry. apply rounds_length.
Qed.

Lemma hashBlocks_length (steps : nat) (h words : list Z) :
  List.length (hashBlocks steps h words) = List.length h.
Proof.
  revert h words. induction steps as [ | n IH]; intros h words; [reflexivity | ].
  destruct words as [ | x words]; [reflexivity | ].
  cbn [hashBlocks]. rewrite IH. apply compress_length.
Qed.

Lemma sha256_length (msg : list Z) : List.length (sha256 msg) = 8%nat.
Proof. unfold sha256. cbv zeta. rewrite hashBlocks_length. reflexivity. Qed.

Lemma append_length (a b : string) :
  String.length (a +:+ b) = (String.length a + String.length b)%nat.
Proof. induction a as [ | c a IH]; simpl; [ | rewrite IH]; reflexivity. Qed.

Lemma allChars_append (p : ascii -> bool) (a b : string) :
  allChars p (a +:+ b) = allChars p a && allChars p b.
Proof.
  induction a as [ | c a IH]; simpl; [reflexivity | ].
  rewrite IH, andb_assoc. reflexivity.
Qed.

Lemma hexDigit_lower (n : Z) : isLowerHex (hexDigit (n mod 16)) = true.
Proof.
  assert (H : 0 <= n mod 16 < 16) by (apply Z.mod_pos_bound; lia).
  set (m := n mod 16) in *.
  assert (Hm : m = 0 \/ m = 1 \/ m = 2 \/ m = 3 \/ m = 4 \/ m = 5 \/ m = 6 \/ m = 7
               \/ m = 8 \/ m = 9 \/ m = 10 \/ m = 11 \/ m = 12 \/ m = 13 \/ m = 14
               \/ m = 15) by lia.
  repeat (destruct Hm as [-> | Hm]; [reflexivity | ]). rewrite Hm. reflexivity.
Qed.

Lemma hexWord_shape (x : Z) :
  String.length (hexWord x) = 8%nat /\ allChars isLowerHex (hexWord x) = true.
Proof.
  split; [reflexivity | ].
  unfold hexWord. cbn [map string_of_list_ascii allChars].
  rewrite !hexDigit_lower. reflexivity.
Qed.

Lemma hexWords_shape (l : list Z) :
  String.length (hexWords l) = (8 * List.length l)%nat
  /\ allChars isLowerHex (hexWords l) = true.
Proof.
  induction l as [ | x l [IH1 IH2]]; [split; reflexivity | ].
  cbn [hexWords]. rewrite append_length, allChars_append, IH1, IH2.
  destruct (hexWord_shape x) as [H1 H2]. rewrite H1, H2.
  split; [simpl List.length; lia | reflexivity].
Qed.

Lemma sha256hex_shape (data : string) :
  String.length (sha256hex data) = 64%nat
  /\ allChars isLowerHex (sha256hex data) = true.
Proof.
  unfold sha256hex. destruct (hexWords_shape (sha256 (utf8 data))) as [H1 H2].
  rewrite H1, H2, sha256_length. split; reflexivity.
Qed.

(** X19.  The cache key, and both hashes of an audit row, are always 64
    characters long, each a digit or a letter from a to f. *)
Theorem cache_key_is_64_hex_digits (req : Request) (l : list string)
    (text : option string) :
  isDigest (cacheKeyOf req l)
  /\ isDigest (input_hash (auditRowOf req l text))
  /\ isDigest (response_hash (auditRowOf req l text)).
Proof. repeat split; apply sha256hex_shape. Qed.

End Digest.

(** * The hashed text determines the request *)

Section KeyText.
Import JS Crypto MedicalLogic Server Props Terms.
#[local] Arguments String.append !_ _ / : simpl nomatch.

Lemma joinWith_following (m : string) (ms : list string) (x : string) :
  joinWith "," (m :: ms) +:+ x = m +:+ following ms x.
Proof.
  revert m. induction ms as [ | m' ms IH]; intros m; [reflexivity | ].
  rewrite joinWith_cons, !append_assoc, IH. reflexivity.
Qed.

Lemma object_text (ms : list string) (z : string) :
  stringifyObject ms +:+ z
  = "{" +:+ match ms with
            | [] => "}" +:+ z
            | m :: ms' => m +:+ following ms' ("}" +:+ z)
            end.
Proof.
  unfold stringifyObject. destruct ms as [ | m ms]; [reflexivity | ].
  rewrite !append_assoc, joinWith_following. reflexivity.
Qed.

Lemma following_head (fs : list (string * option string)) (x k z : string) :
  following (members fs) ("}" +:+ x) = "," +:+ (quote k +:+ z) ->
  In k (map fst fs).
Proof.
  induction fs as [ | [k0 [v | ]] fs IH]; intros H.
  - discriminate H.
  - cbn [members flat_map stringifyField fst snd app following fold_right] in H.
    apply (append_inv_head ",") in H. rewrite !append_assoc in H.
    apply quote_inj in H. left. tauto.
  - right. apply IH. exact H.
Qed.

Lemma following_inj (ks : list string) :
  List.NoDup ks ->
  forall (fs1 fs2 : list (string * option string)) (x y : string),
    map fst fs1 = ks -> map fst fs2 = ks ->
    following (members fs1) ("}" +:+ x) = following (members fs2) ("}" +:+ y) ->
    fs1 = fs2 /\ x = y.
Proof.
  induction 1 as [ | k ks Hk Hnd IH]; intros fs1 fs2 x y H1 H2 H.
  - destruct fs1; [ | discriminate]. destruct fs2; [ | discriminate].
    apply (append_inv_head "}") in H. auto.
  - destruct fs1 as [ | [k1 o1] fs1]; [discriminate | ].
    destruct fs2 as [ | [k2 o2] fs2]; [discriminate | ].
    simpl in H1, H2. injection H1 as -> H1. injection H2 as -> H2.
    destruct o1 as [a | ], o2 as [b | ].
    + cbn [members flat_map stringifyField fst snd app following fold_right] in H.
      fold (members fs1) (members fs2) in H.
      fold (following (members fs1) ("}" +:+ x)) (following (members fs2) ("}" +:+ y)) in H.
      apply (append_inv_head ",") in H. rewrite !append_assoc in H.
      apply quote_inj in H. destruct H as [_ H].
      apply (append_inv_head ":") in H.
      apply quote_inj in H. destruct H as [-> H].
      destruct (IH _ _ _ _ H1 H2 H) as [-> ->]. auto.
    + exfalso. apply Hk. rewrite <- H2.
      cbn [members flat_map stringifyField fst snd app following fold_right] in H.
      fold (members fs1) (members fs2) in H.
      fold (following (members fs2) ("}" +:+ y)) in H.
      symmetry in H. rewrite !append_assoc in H.
      exact (following_head _ _ _ _ H).
    + exfalso. apply Hk. rewrite <- H1.
      cbn [members flat_map stringifyField fst snd app following fold_right] in H.
      fold (members fs1) (members fs2) in H.
      fold (following (members fs1) ("}" +:+ x)) in H.
      rewrite !append_assoc in H.
      exact (following_head _ _ _ _ H).
    + destruct (IH _ _ _ _ H1 H2 H) as [-> ->]. auto.
Qed.

Lemma members_head (fs : list (string * option string)) (m : string)
    (ms : list string) :
  members fs = m :: ms -> exists z, m = String dquote z.
Proof.
  induction fs as [ | [k [v | ]] fs IH]; intros H.
  - discriminate H.
  - injection H as <- _. eexists. reflexivity.
  - exact (IH H).
Qed.

(** A serialised object followed by anything determines its fields and
    what follows. *)
Lemma object_inj (ks : list string) (fs1 fs2 : list (string * option string))
    (z1 z2 : string) :
  List.NoDup ks -> map fst fs1 = ks -> map fst fs2 = ks ->
  stringifyObject (members fs1) +:+ z1 = stringifyObject (members fs2) +:+ z2 ->
  fs1 = fs2 /\ z1 = z2.
Proof.
  intros Hnd H1 H2 H. rewrite !object_text in H. apply (append_inv_head "{") in H.
  apply (following_inj ks Hnd _ _ _ _ H1 H2).
  destruct (members fs1) as [ | m1 ms1] eqn:E1, (members fs2) as [ | m2 ms2] eqn:E2.
  - exact H.
  - destruct (members_head _ _ _ E2) as [z ->]. discriminate H.
  - destruct (members_head _ _ _ E1) as [z ->]. discriminate H.
  - change ("," +:+ (m1 +:+ following ms1 ("}" +:+ z1))
            = "," +:+ (m2 +:+ following ms2 ("}" +:+ z2))).
    rewrite H. reflexivity.
Qed.

Lemma vitalsLiteral_members (v : Vitals) :
  vitalsLiteral v = stringifyObject (members (vitalsFields v)).
Proof.
  unfold vitalsLiteral, members, vitalsFields. cbn [flat_map fst snd].
  rewrite app_nil_r. reflexivity.
Qed.

Lemma demographicsLiteral_members (d : Demographics) :
  demographicsLiteral d = stringifyObject (members (demographicsFields d)).
Proof.
  unfold demographicsLiteral, members, demographicsFields. cbn [flat_map fst snd].
  rewrite app_nil_r. reflexivity.
Qed.

Lemma distinct_vitals_keys :
  List.NoDup ["temperature"; "bloodPressure"; "heartRate"; "spO2"].
Proof.
  repeat (constructor; [simpl; intuition discriminate | ]). constructor.
Qed.

Lemma distinct_demographics_keys :
  List.NoDup ["age"; "gender"; "preExistingConditions"].
Proof.
  repeat (constructor; [simpl; intuition discriminate | ]). constructor.
Qed.

Lemma vitalsLiteral_inj (v1 v2 : Vitals) (z1 z2 : string) :
  vitalsLiteral v1 +:+ z1 = vitalsLiteral v2 +:+ z2 -> v1 = v2 /\ z1 = z2.
Proof.
  rewrite !vitalsLiteral_members. intros H.
  apply (object_inj _ (vitalsFields v1) (vitalsFields v2) _ _ distinct_vitals_keys
           eq_refl eq_refl) in H.
  destruct H as [H ->]. destruct v1, v2. injection H as -> -> -> ->. auto.
Qed.

Lemma demographicsLiteral_inj (d1 d2 : Demographics) (z1 z2 : string) :
  demographicsLiteral d1 +:+ z1 = demographicsLiteral d2 +:+ z2 ->
  d1 = d2 /\ z1 = z2.
Proof.
  rewrite !demographicsLiteral_members. intros H.
  apply (object_inj _ (demographicsFields d1) (demographicsFields d2) _ _
           distinct_demographics_keys eq_refl eq_refl) in H.
  destruct H as [H ->]. destruct d1, d2. injection H as -> -> ->. auto.
Qed.

Lemma cacheKeyData_text (l : list string) (v d : option string) :
  cacheKeyData l v d
  = ("{" +:+ quote "symptoms" +:+ ":[")
    +:+ (stringifyElements (sort l) +:+ following (otherMembers v d) "}").
Proof.
  unfold cacheKeyData, stringifyArray, stringifyObject. fold (otherMembers v d).
  cbn [app]. rewrite joinWith_following, !append_assoc. reflexivity.
Qed.

(** Equal hashed texts: equal sorted symptoms, and equal texts after them. *)
Lemma cacheKeyData_split (l1 l2 : list string) (v1 v2 d1 d2 : option string) :
  cacheKeyData l1 v1 d1 = cacheKeyData l2 v2 d2 ->
  Permutation l1 l2
  /\ following (otherMembers v1 d1) "}" = following (otherMembers v2 d2) "}".
Proof.
  rewrite !cacheKeyData_text. intros H. apply append_inv_head in H.
  apply stringifyElements_inj in H. destruct H as [Hs H]. split; [ | exact H].
  rewrite (sort_is_permutation l1), Hs. symmetry. apply sort_is_permutation.
Qed.

Lemma demographics_member_inj (d1 d2 : option Demographics) :
  following (stringifyMember "demographics" (option_map demographicsLiteral d1)) "}"
  = following (stringifyMember "demographics" (option_map demographicsLiteral d2)) "}" ->
  d1 = d2.
Proof.
  destruct d1 as [d1 | ], d2 as [d2 | ]; cbn [option_map stringifyMember following fold_right];
    intros H; try reflexivity; try discriminate H.
  apply (append_inv_head ",") in H. rewrite !append_assoc in H.
  apply quote_inj in H. destruct H as [_ H]. apply (append_inv_head ":") in H.
  apply demographicsLiteral_inj in H. destruct H as [-> _]. reflexivity.
Qed.

Lemma literal_members_inj (v1 v2 : option Vitals) (d1 d2 : option Demographics) :
  following (otherMembers (option_map vitalsLiteral v1)
               (option_map demographicsLiteral d1)) "}"
  = following (otherMembers (option_map vitalsLiteral v2)
                 (option_map demographicsLiteral d2)) "}" ->
  v1 = v2 /\ d1 = d2.
Proof.
  unfold otherMembers.
  destruct v1 as [v1 | ], v2 as [v2 | ];
    cbn [option_map stringifyMember app following fold_right]; intros H.
  - apply (append_inv_head ",") in H. rewrite !append_assoc in H.
    apply quote_inj in H. destruct H as [_ H]. apply (append_inv_head ":") in H.
    apply vitalsLiteral_inj in H. destruct H as [-> H].
    rewrite (demographics_member_inj d1 d2 H). auto.
  - exfalso. destruct d2 as [d2 | ];
      cbn [option_map stringifyMember app following fold_right] in H;
      [ | discriminate H].
    apply (append_inv_head ",") in H. rewrite !append_assoc in H.
    apply quote_inj in H. destruct H as [H _]. discriminate H.
  - exfalso. destruct d1 as [d1 | ];
      cbn [option_map stringifyMember app following fold_right] in H;
      [ | discriminate H].
    apply (append_inv_head ",") in H. rewrite !append_assoc in H.
    apply quote_inj in H. destruct H as [H _]. discriminate H.
  - rewrite (demographics_member_inj d1 d2 H). auto.
Qed.

Lemma append_inv_tail (x y a : string) : x +:+ a = y +:+ a -> x = y.
Proof.
  revert y. induction x as [ | c x IH]; intros [ | c' y] H.
  - reflexivity.
  - exfalso. apply (f_equal String.length) in H.
    rewrite !append_length in H. simpl in H. lia.
  - exfalso. apply (f_equal String.length) in H.
    rewrite !append_length in H. simpl in H. lia.
  - simpl in H. injection H as -> H. rewrite (IH _ H). reflexivity.
Qed.

(** One member more or less, or another text for it, is another text for
    the whole, whatever follows. *)
Lemma member_text_inj (key : string) (t1 t2 : option string) (rest : string) :
  following (stringifyMember key t1) rest = following (stringifyMember key t2) rest ->
  t1 = t2.
Proof.
  destruct t1 as [x1 | ], t2 as [x2 | ]; cbn [stringifyMember following fold_right];
    intros H.
  - apply (append_inv_head ",") in H. rewrite !append_assoc in H.
    apply quote_inj in H. destruct H as [_ H]. apply (append_inv_head ":") in H.
    rewrite (append_inv_tail _ _ _ H). reflexivity.
  - exfalso. apply (f_equal String.length) in H.
    rewrite !append_length in H. simpl in H. lia.
  - exfalso. apply (f_equal String.length) in H.
    rewrite !append_length in H. simpl in H. lia.
  - reflexivity.
Qed.

Lemma following_app (a b : list string) (x : string) :
  following (a ++ b) x = following a (following b x).
Proof. unfold following. apply fold_right_app. Qed.

(** X20.  The text that is hashed into the cache key holds the sorted
    symptoms and the vitals and demographics as [JSON.stringify] writes
    them.  Two requests that differ only in the text of their vitals, or
    only in the text of their demographics, are hashed from different texts:
    the same fields written in another order of keys make another key.  For
    bodies written as the client of the application writes them (the keys
    of the interface, in its order), the hashed text determines the request
    up to the order of the symptoms: two such requests give the same text
    exactly when their symptom lists are permutations of each other and
    their vitals and demographics are equal, field by field.  Requests with
    different texts can share a key only through a collision of SHA-256. *)
Theorem cache_key_text_is_injective (l1 l2 : list string) (v1 v2 : option Vitals)
    (d1 d2 : option Demographics) (t1 t2 u : option string) :
  (cacheKeyData l1 t1 u = cacheKeyData l2 t2 u <-> Permutation l1 l2 /\ t1 = t2)
  /\ (cacheKeyData l1 u t1 = cacheKeyData l2 u t2 <-> Permutation l1 l2 /\ t1 = t2)
  /\ (cacheKeyData l1 (option_map vitalsLiteral v1) (option_map demographicsLiteral d1)
      = cacheKeyData l2 (option_map vitalsLiteral v2) (option_map demographicsLiteral d2)
      <-> Permutation l1 l2 /\ v1 = v2 /\ d1 = d2).
Proof.
  assert (Hback : forall a b x y, Permutation a b ->
            cacheKeyData a x y = cacheKeyData b x y).
  { intros a b x y Hp. unfold cacheKeyData.
    rewrite (sort_permutation _ _ Hp). reflexivity. }
  split; [ | split]; split.
  - intros H. apply cacheKeyData_split in H. destruct H as [Hp H].
    split; [exact Hp | ]. unfold otherMembers in H. rewrite !following_app in H.
    exact (member_text_inj _ _ _ _ H).
  - intros [Hp ->]. exact (Hback _ _ _ _ Hp).
  - intros H. apply cacheKeyData_split in H. destruct H as [Hp H].
    split; [exact Hp | ]. unfold otherMembers in H. rewrite !following_app in H.
    destruct u as [x | ]; cbn [stringifyMember following fold_right] in H.
    + apply (append_inv_head ",") in H. rewrite !append_assoc in H.
      apply (append_inv_head (quote "vitals")) in H.
      apply (append_inv_head ":") in H. apply (append_inv_head x) in H.
      exact (member_text_inj _ _ _ _ H).
    + exact (member_text_inj _ _ _ _ H).
  - intros [Hp ->]. exact (Hback _ _ _ _ Hp).
  - intros H. apply cacheKeyData_split in H. destruct H as [Hp H].
    split; [exact Hp | ]. exact (literal_members_inj _ _ _ _ H).
  - intros (Hp & -> & ->). exact (Hback _ _ _ _ Hp).
Qed.

End KeyText.
